(** * Rephrase.AI: the chat-history n-gram suggestion engine

    A shallow embedding of [backend/utils/contextual_suggestions.py]
    (and of the one method of [backend/utils/context_loader.py] that calls
    it), with the properties of its tokenizer, corpus builder and
    suggestion walk.

    Python values are modelled as follows.
    - [str] is a list of Unicode code points ([N]).
    - [List[str]] and tuples of [str] are lists.
    - [Counter] is an insertion-ordered association list from token to
      count, because [most_common] depends on the insertion order.
    - the [defaultdict(Counter)] is a [gmap] from prefix tuples to counters;
      reading a missing key through [model[k]] inserts an empty counter,
      which is written out in [defaultdict_getitem].
    - a raised exception is the [Raise] outcome of the [result] type. *)

From Stdlib Require Import ZArith NArith String Ascii.
From stdpp Require Import base list gmap.

#[local] Set Warnings "-register-all".
Local Open Scope N_scope.

(** ** Python strings *)

Abbreviation char := BinNums.N.
Abbreviation str := (list BinNums.N).

(** A literal: the code points of an ASCII string. *)
Definition py (s : string) : str :=
  List.map N_of_ascii (list_ascii_of_string s).

(** [Py_UNICODE_ISSPACE]: the test behind both [str.split()] and the [\s]
    class of [re] on [str] patterns. *)
Definition isspace (c : char) : bool :=
  ((9 <=? c) && (c <=? 13)) || ((28 <=? c) && (c <=? 32))
  || (c =? 0x85) || (c =? 0xA0) || (c =? 0x1680)
  || ((0x2000 <=? c) && (c <=? 0x200A))
  || (c =? 0x2028) || (c =? 0x2029) || (c =? 0x202F)
  || (c =? 0x205F) || (c =? 0x3000).

Definition is_az (c : char) : bool := (97 <=? c) && (c <=? 122).
Definition is_09 (c : char) : bool := (48 <=? c) && (c <=? 57).

(** The character class [a-z0-9]. *)
Definition alnum (c : char) : bool := is_az c || is_09 c.

(** The complement of the class [[^a-z0-9\s]]: what [re.sub] keeps. *)
Definition kept (c : char) : bool := is_az c || is_09 c || isspace c.

Definition is_ascii (s : str) : bool := forallb (fun c => c <? 128) s.

Definition ascii_lower (c : char) : char :=
  if (65 <=? c) && (c <=? 90) then c + 32 else c.

(** [" ".join(l)] and the like. *)
Fixpoint join (sep : str) (l : list str) : str :=
  match l with
  | [] => []
  | [x] => x
  | x :: l' => x ++ sep ++ join sep l'
  end.

(** [s.split()]: split on runs of whitespace, no empty pieces.  [cur] is
    the piece being read. *)
Fixpoint split_from (cur : str) (s : str) : list str :=
  match s with
  | [] => match cur with [] => [] | _ => [cur] end
  | c :: s' =>
      if isspace c
      then match cur with
           | [] => split_from [] s'
           | _ => cur :: split_from [] s'
           end
      else split_from (cur ++ [c]) s'
  end.

Definition split (s : str) : list str := split_from [] s.

(** [re.sub(r"[^a-z0-9\s]", "", text)] *)
Definition re_sub_strip (text : str) : str := List.filter kept text.

(** A Token of the data model: nonempty, made of [a-z0-9] only. *)
Definition is_token (t : str) : Prop :=
  t ≠ [] ∧ ∀ c, c ∈ t → alnum c = true.

(** ** Exceptions, results *)

Inductive exn :=
| OSError | UnicodeDecodeError | JSONDecodeError | TypeError | AttributeError
| IndexError.

Inductive result (A : Type) :=
| Return (a : A)
| Raise (e : exn).
Arguments Return {A} a.
Arguments Raise {A} e.

#[global] Instance result_ret : MRet result := @Return.
#[global] Instance result_bind : MBind result :=
  λ A B f r, match r with Return a => f a | Raise e => Raise e end.
#[global] Instance result_fmap : FMap result :=
  λ A B f r, match r with Return a => Return (f a) | Raise e => Raise e end.

(** A [for] loop over [l] whose body may raise. *)
Fixpoint for_each {A S : Type} (body : S → A → result S) (l : list A) (s : S)
  : result S :=
  match l with
  | [] => Return s
  | x :: l' => s' ← body s x; for_each body l' s'
  end.

(** ** Sequences: [range], indexing and slicing with Python's conventions *)

Local Open Scope Z_scope.

Definition range (n : Z) : list Z :=
  List.map Z.of_nat (seq 0 (Z.to_nat n)).

Definition len {A : Type} (l : list A) : Z := Z.of_nat (length l).

(** [l[i]]: a negative index counts from the end, an index out of range
    raises [IndexError]. *)
Definition getitem {A : Type} (l : list A) (i : Z) : result A :=
  let j := if i <? 0 then i + len l else i in
  if (0 <=? j) && (j <? len l)
  then match l !! Z.to_nat j with
       | Some x => Return x
       | None => Raise IndexError
       end
  else Raise IndexError.

(** A slice bound is clamped into [0 .. len]. *)
Definition slice_bound (n i : Z) : Z :=
  if i <? 0 then Z.max 0 (i + n) else Z.min i n.

(** [l[lo:hi]] *)
Definition slice {A : Type} (l : list A) (lo hi : Z) : list A :=
  let lo' := slice_bound (len l) lo in
  let hi' := slice_bound (len l) hi in
  take (Z.to_nat (hi' - lo')) (drop (Z.to_nat lo') l).

(** [l[lo:]] *)
Definition slice_from {A : Type} (l : list A) (lo : Z) : list A :=
  drop (Z.to_nat (slice_bound (len l) lo)) l.

(** ** CONFIG *)

(** Trigram model.  (From here on [N] is the model order of the source;
    the code points above are [char].) *)
Definition N : Z := 3.

(** ** The data source *)

(** A value produced by [json.loads].  An object is the list of its items;
    the keys of a parsed object are distinct. *)
Inductive json :=
| JNull
| JBool (b : bool)
| JInt (z : Z)
| JFloat (mantissa exponent : Z)
| JStr (s : str)
| JList (l : list json)
| JDict (d : list (str * json)).

(** What [path.exists()], [path.read_text] and [json.loads] make of the
    chat-history path. *)
Inductive source :=
| Missing                (* path.exists() is False *)
| Unreadable             (* the file cannot be opened or read: OSError *)
| Undecodable            (* its bytes are not UTF-8: UnicodeDecodeError *)
| Malformed              (* json.loads raises JSONDecodeError *)
| Loaded (data : json).  (* json.loads returns data *)

(** [d.get(k, default)] *)
Definition dict_get (d : list (str * json)) (k : str) (default : json) : json :=
  match List.find (λ kv, bool_decide (kv.1 = k)) d with
  | Some kv => kv.2
  | None => default
  end.

(** [item.get("message", "")]: only a dict has [get]. *)
Definition item_get_message (item : json) : result json :=
  match item with
  | JDict d => Return (dict_get d (py "message") (JStr []))
  | _ => Raise AttributeError
  end.

(** [for item in data]: a list yields its items, a dict its keys, a string
    its characters; nothing else is iterable. *)
Definition iterate (data : json) : result (list json) :=
  match data with
  | JList l => Return l
  | JDict d => Return (List.map (λ kv, JStr kv.1) d)
  | JStr s => Return (List.map (λ c, JStr [c]) s)
  | _ => Raise TypeError
  end.

(** ** The Counter and the defaultdict *)

Abbreviation counter := (list (str * Z)).
Abbreviation ngram_model := (gmap (list str) (list (str * Z))).

(** [c[w]]: a Counter reads 0 at a missing key and does not insert it. *)
Definition counter_get (c : counter) (w : str) : Z :=
  match List.find (λ kv, bool_decide (kv.1 = w)) c with
  | Some kv => kv.2
  | None => 0
  end.

(** [c[w] = n]: an existing key keeps its place, a new key goes last. *)
Fixpoint counter_set (c : counter) (w : str) (n : Z) : counter :=
  match c with
  | [] => [(w, n)]
  | kv :: c' =>
      if bool_decide (kv.1 = w) then (w, n) :: c'
      else kv :: counter_set c' w n
  end.

(** [c[w] += 1] *)
Definition counter_incr (c : counter) (w : str) : counter :=
  counter_set c w (counter_get c w + 1).

(** [model[k]] on a [defaultdict(Counter)]: a missing key is inserted with
    an empty Counter. *)
Definition defaultdict_getitem (m : ngram_model) (k : list str)
  : counter * ngram_model :=
  match m !! k with
  | Some c => (c, m)
  | None => ([], <[k := []]> m)
  end.

(** [max(items, key=itemgetter(1))]: the running maximum is replaced only
    by a strictly greater item. *)
Definition max_by_count (first : str * Z) (others : counter) : str * Z :=
  foldl (λ best kv, if best.2 <? kv.2 then kv else best) first others.

(** [c.most_common(1)], that is [heapq.nlargest(1, c.items(), key=...)]. *)
Definition most_common_1 (c : counter) : counter :=
  match c with
  | [] => []
  | kv :: c' => [max_by_count kv c']
  end.

(** ** Notions the properties are stated with *)

(** A record of the chat history: a JSON object whose ["message"], when it
    has one, is a string. *)
Definition is_record (item : json) : Prop :=
  ∃ d s, item = JDict d ∧ dict_get d (py "message") (JStr []) = JStr s.

(** A JSON object without a ["message"] key. *)
Definition lacks_message (item : json) : Prop :=
  ∃ d, item = JDict d ∧ py "message" ∉ d.*1.

(** The (Context, next-Token) pairs one sentence contributes, in the order
    in which the inner loop of [build_ngram_model] records them. *)
Definition ngrams (tokens : list str) : list (list str * str) :=
  flat_map
    (λ i, match getitem tokens (i + N - 1) with
          | Return next_word => [(slice tokens i (i + N - 1), next_word)]
          | Raise _ => []
          end)
    (range (len tokens - N + 1)).

(** What recording one pair does to the model. *)
Definition record_ngram (m : ngram_model) (p : list str * str) : ngram_model :=
  <[p.1 := counter_incr (default [] (m !! p.1)) p.2]> m.

(** The counting pass over the corpus. *)
Definition counting_pass (sentences : list (list str)) : list (list str * str) :=
  flat_map ngrams sentences.

(** The next-Tokens recorded for one Context, in recording order. *)
Definition recorded (ctx : list str) (pass : list (list str * str)) : list str :=
  (List.filter (λ p, bool_decide (p.1 = ctx)) pass).*2.

(** How often [w] occurs in [ws]. *)
Definition occurrences (w : str) (ws : list str) : Z :=
  len (List.filter (λ x, bool_decide (x = w)) ws).

(** A Continuation Model of the data model: every Context it holds has at
    least one next-Token, and the next-Tokens are Tokens. *)
Definition wf_model (m : ngram_model) : Prop :=
  ∀ ctx c, m !! ctx = Some c →
    c ≠ [] ∧ ∀ w n, (w, n) ∈ c → is_token w.

(** The case mapping of the Latin-1 letters, a fragment of the Unicode
    table with which the engine is run on concrete inputs. *)
Definition latin1_lower (s : str) : str :=
  List.map
    (λ c, if (0xC0 <=? c)%N && (c <=? 0xDE)%N && negb (c =? 0xD7)%N
          then (c + 32)%N else ascii_lower c)
    s.

(** The corpus of the two-message scenario, and a corpus whose walk runs
    in a cycle. *)
Definition two_messages : json :=
  JList [JDict [(py "message", JStr (py "I will review the document today"))];
         JDict [(py "message", JStr (py "I will send the review today"))]].

Definition cyclic_model : ngram_model :=
  {[ [py "a"; py "a"] := [(py "a", 2)] ]}.

(** The windows of three consecutive tokens of a sentence, as (Context,
    next-Token) pairs, from left to right. *)
Fixpoint trigrams (tokens : list str) : list (list str * str) :=
  match tokens with
  | a :: rest =>
      match rest with
      | b :: w :: _ => ([a; b], w) :: trigrams rest
      | _ => []
      end
  | [] => []
  end.

(** The Context the walk is at after it has appended [ws]. *)
Definition walk_context (prefix ws : list str) : list str :=
  foldl (λ prefix w, slice_from prefix 1 ++ [w]) prefix ws.

(** Each token of [ws] was recorded, in the counting pass, after the
    Context the walk was at. *)
Fixpoint follows (pass : list (list str * str)) (prefix ws : list str) : Prop :=
  match ws with
  | [] => True
  | w :: ws' => (prefix, w) ∈ pass ∧ follows pass (slice_from prefix 1 ++ [w]) ws'
  end.

(** The sum of the counts of a Counter. *)
Definition counter_total (c : counter) : Z := foldr Z.add 0 c.*2.

(** The text of a record: its ["message"], the empty string without one. *)
Definition record_text (item : json) : str :=
  match item with
  | JDict d =>
      match dict_get d (py "message") (JStr []) with
      | JStr s => s
      | _ => []
      end
  | _ => []
  end.

(** ** The context loader ([backend/utils/context_loader.py])

    Every method of [ContextLoader] runs inside [try ... except Exception],
    so that which exception an operation raises does not matter there: a
    failing operation is [None]. *)

(** [v[k]]: only a dict can be indexed by a string, and the key must be
    there. *)
Definition subscript (v : json) (k : str) : option json :=
  match v with
  | JDict d => snd <$> List.find (λ kv, bool_decide (kv.1 = k)) d
  | _ => None
  end.

(** [data[lo:]] followed by the iteration over the slice: a list gives its
    items, a string its characters; nothing else can be sliced. *)
Definition slice_items (data : json) (lo : Z) : option (list json) :=
  match data with
  | JList l => Some (slice_from l lo)
  | JStr s => Some (List.map (λ c, JStr [c]) (slice_from s lo))
  | _ => None
  end.

(** An entry of the list [load_chat_history] returns. *)
Record chat_entry := { role : str; content : json }.

(** [msg['sender'] == user_id], for a [user_id] that is a string or
    [None]. *)
Definition sender_is (sender : json) (user_id : option str) : bool :=
  match sender, user_id with
  | JStr s, Some u => bool_decide (s = u)
  | JNull, None => true
  | _, _ => false
  end.

Definition chat_entry_of (user_id : option str) (msg : json) : option chat_entry :=
  sender ← subscript msg (py "sender");
  message ← subscript msg (py "message");
  Some {| role := if sender_is sender user_id then py "user" else py "assistant";
          content := message |}.

Definition load_chat_history (file : source) (user_id : option str) (limit : Z)
  : list chat_entry :=
  match file with
  | Loaded history =>
      match slice_items history (- limit) with
      | Some msgs => default [] (mapM (chat_entry_of user_id) msgs)
      | None => []
      end
  | _ => []
  end.

(** [timestamp or datetime.now().isoformat()] *)
Definition timestamp_or (timestamp : option str) (now : str) : str :=
  match timestamp with
  | Some (c :: t) => c :: t
  | _ => now
  end.

(** [save_message]: the outcome and the chat-history file afterwards.
    [writable] tells whether [open(history_file, 'w')] succeeds; a write
    that starts is taken to complete, what [json.dump] writes being what
    [json.loads] reads back. *)
Definition save_message (file : source) (writable : bool)
    (sender message : json) (timestamp : option str) (now : str)
  : bool * source :=
  let history :=
    match file with
    | Missing => Some (JList [])
    | Loaded data => Some data
    | _ => None
    end in
  match history with
  | Some (JList history) =>
      let new_message :=
        JDict [(py "sender", sender); (py "message", message);
               (py "timestamp", JStr (timestamp_or timestamp now))] in
      if writable then (true, Loaded (JList (history ++ [new_message])))
      else (false, file)
  | _ => (false, file)
  end.

(** [v in options], for a list of string literals. *)
Definition str_in (v : json) (options : list str) : bool :=
  match v with
  | JStr s => bool_decide (s ∈ options)
  | _ => false
  end.

(** The filter of [load_jira_context]; [or] does not look at the priority
    of a task whose status decides. *)
Definition is_active (task : json) : option bool :=
  status ← subscript task (py "status");
  if str_in status [py "In Progress"; py "In Review"] then Some true
  else
    priority ← subscript task (py "priority");
    Some (str_in priority [py "High"; py "Critical"]).

Fixpoint select_active (tasks : list json) : option (list json) :=
  match tasks with
  | [] => Some []
  | task :: tasks' =>
      b ← is_active task;
      rest ← select_active tasks';
      Some (if b : bool then task :: rest else rest)
  end.

Record jira_context := { active_tasks : list json; total_tasks : Z }.

Definition load_jira_context (file : source) : jira_context :=
  let fallback := {| active_tasks := []; total_tasks := 0 |} in
  match file with
  | Loaded all_tasks =>
      match iterate all_tasks with
      | Return tasks =>
          match select_active tasks with
          | Some active => {| active_tasks := active; total_tasks := len tasks |}
          | None => fallback
          end
      | Raise _ => fallback
      end
  | _ => fallback
  end.

Section Engine.

(** [str.lower()] takes the ASCII path on an ASCII string; on any other
    string it applies the Unicode full case mapping (with its final-sigma
    rule), a table of the Python runtime that is taken as a parameter. *)
Variable unicode_lower : str → str.

Definition lower (s : str) : str :=
  if is_ascii s then List.map ascii_lower s else unicode_lower s.

(** ** TEXT CLEANING *)

Definition normalize (text : str) : list str :=
  let text := lower text in
  let text := re_sub_strip text in
  split text.

(** ** LOAD CHAT HISTORY *)

(** [normalize(msg)]: [msg.lower()] exists on a string only. *)
Definition normalize_value (msg : json) : result (list str) :=
  match msg with
  | JStr s => Return (normalize s)
  | _ => Raise AttributeError
  end.

Fixpoint load_loop (items : list json) (sentences : list (list str))
  : result (list (list str)) :=
  match items with
  | [] => Return sentences
  | item :: rest =>
      msg ← item_get_message item;
      tokens ← normalize_value msg;
      if N <=? len tokens
      then load_loop rest (sentences ++ [tokens])
      else load_loop rest sentences
  end.

Definition load_sentences (path : source) : result (list (list str)) :=
  match path with
  | Missing => Return []
  | Unreadable => Raise OSError
  | Undecodable => Raise UnicodeDecodeError
  | Malformed => Raise JSONDecodeError
  | Loaded data => items ← iterate data; load_loop items []
  end.

(** ** BUILD N-GRAM MODEL *)

(** The body of the inner loop: [model[prefix][next_word] += 1]. *)
Definition count_ngram (tokens : list str) (model : ngram_model) (i : Z)
  : result ngram_model :=
  let prefix := slice tokens i (i + N - 1) in
  next_word ← getitem tokens (i + N - 1);
  let '(c, model) := defaultdict_getitem model prefix in
  Return (<[prefix := counter_incr c next_word]> model).

Definition build_ngram_model (sentences : list (list str)) : result ngram_model :=
  for_each
    (λ model tokens,
       for_each (count_ngram tokens) (range (len tokens - N + 1)) model)
    sentences ∅.

(** ** AUTOCOMPLETE CORE *)

(** The loop [for _ in range(max_words)], with the model threaded through:
    the outcome and the model as the loop leaves it. *)
Fixpoint autocomplete_loop (iters : list Z) (model : ngram_model)
    (prefix suggestion : list str) : result (list str) * ngram_model :=
  match iters with
  | [] => (Return suggestion, model)
  | _ :: iters' =>
      match model !! prefix with
      | None => (Return suggestion, model)
      | Some _ =>
          let '(c, model) := defaultdict_getitem model prefix in
          match most_common_1 c with
          | [] => (Raise IndexError, model)
          | (next_word, _) :: _ =>
              autocomplete_loop iters' model
                (slice_from prefix 1 ++ [next_word])
                (suggestion ++ [next_word])
          end
      end
  end.

Definition autocomplete_run (model : ngram_model) (user_input : str)
    (max_words : Z) : result str * ngram_model :=
  let tokens := normalize user_input in
  if len tokens <? N - 1 then (Return [], model)
  else
    let prefix := slice_from tokens (- (N - 1)) in
    let '(r, model) := autocomplete_loop (range max_words) model prefix [] in
    (join (py " ") <$> r, model).

Definition autocomplete (model : ngram_model) (user_input : str)
    (max_words : Z) : result str :=
  (autocomplete_run model user_input max_words).1.

(** ** PUBLIC FUNCTION (USED BY ContextLoader) *)

Definition get_contextual_suggestion (chat_history_path : source)
    (user_input : str) (max_words : Z) : result str :=
  sentences ← load_sentences chat_history_path;
  match sentences with
  | [] => Return []
  | _ =>
      model ← build_ngram_model sentences;
      autocomplete model user_input max_words
  end.

(** [ContextLoader.load_contextual_suggestions]: the caller, which wraps
    the call in [try ... except Exception]. *)
Definition load_contextual_suggestions (chat_path : source) (user_input : str)
  : str :=
  match chat_path with
  | Missing => py "No chat history available for suggestions."
  | _ =>
      match get_contextual_suggestion chat_path user_input 10 with
      | Return s => s
      | Raise _ => py "Error generating suggestions."
      end
  end.

(** A record whose text gives fewer than [N] tokens. *)
Definition short_record (item : json) : Prop :=
  ∃ d s, item = JDict d ∧ dict_get d (py "message") (JStr []) = JStr s
         ∧ len (normalize s) < N.

(** * Properties *)

(** ** Characters *)

Lemma alnum_range c :
  alnum c = true ↔ (97 ≤ c ≤ 122)%N ∨ (48 ≤ c ≤ 57)%N.
Proof.
  unfold alnum, is_az, is_09.
  rewrite orb_true_iff, !andb_true_iff, !N.leb_le. tauto.
Qed.

Lemma alnum_not_space c : alnum c = true → isspace c = false.
Proof.
  intros H%alnum_range. apply not_true_iff_false. unfold isspace.
  rewrite !orb_true_iff, !andb_true_iff, !N.leb_le, !N.eqb_eq. lia.
Qed.

Lemma kept_not_space c : kept c = true → isspace c = false → alnum c = true.
Proof.
  unfold kept, alnum. intros H Hs. rewrite Hs, orb_false_r in H. exact H.
Qed.

Lemma alnum_kept c : alnum c = true → kept c = true.
Proof. unfold kept, alnum. intros ->. reflexivity. Qed.

Lemma alnum_ascii_lower c : alnum c = true → ascii_lower c = c.
Proof.
  intros [H|H]%alnum_range; unfold ascii_lower;
    destruct (N.leb_spec 65 c), (N.leb_spec c 90); simpl; lia.
Qed.

Lemma alnum_lt_128 c : alnum c = true → (c <? 128)%N = true.
Proof. intros [H|H]%alnum_range; apply N.ltb_lt; lia. Qed.

(** ** [split] and [join] *)

Lemma split_from_pieces s : ∀ cur t,
  (∀ c, c ∈ cur → isspace c = false) →
  t ∈ split_from cur s →
  t ≠ [] ∧ ∀ c, c ∈ t → (c ∈ cur ∨ c ∈ s) ∧ isspace c = false.
Proof.
  induction s as [|a s IH]; intros cur t Hcur Ht; simpl in Ht.
  - destruct cur as [|c0 cur]; [by apply elem_of_nil in Ht|].
    apply list_elem_of_singleton in Ht as ->. split; [done|].
    intros c Hc. split; [by left | by apply Hcur].
  - destruct (isspace a) eqn:Ha.
    + assert (Hrec : t ∈ split_from [] s →
                t ≠ [] ∧ ∀ c, c ∈ t → (c ∈ cur ∨ c ∈ a :: s) ∧ isspace c = false).
      { intros H. apply IH in H as [Hne Hin]; [|by intros c ?%elem_of_nil].
        split; [done|]. intros c Hc. destruct (Hin c Hc) as [[?%elem_of_nil|?] ?]; [done|].
        split; [right; by apply elem_of_cons; right | done]. }
      destruct cur as [|c0 cur]; [by apply Hrec|].
      apply elem_of_cons in Ht as [->|Ht]; [|by apply Hrec].
      split; [done|]. intros c Hc. split; [by left | by apply Hcur].
    + apply IH in Ht as [Hne Hin].
      * split; [done|]. intros c Hc. destruct (Hin c Hc) as [[Hc'|Hc'] Hsp].
        -- apply elem_of_app in Hc' as [? | -> %list_elem_of_singleton].
           ++ split; [by left | done].
           ++ split; [right; by apply elem_of_cons; left | done].
        -- split; [right; by apply elem_of_cons; right | done].
      * intros c [? | -> %list_elem_of_singleton]%elem_of_app; [by apply Hcur | done].
Qed.

Lemma split_from_word t : ∀ cur s,
  (∀ c, c ∈ t → isspace c = false) →
  split_from cur (t ++ s) = split_from (cur ++ t) s.
Proof.
  induction t as [|a t IH]; intros cur s Ht; simpl.
  - by rewrite app_nil_r.
  - rewrite (Ht a) by (apply elem_of_cons; by left).
    rewrite IH by (intros c Hc; apply Ht, elem_of_cons; by right).
    by rewrite <- app_assoc.
Qed.

Lemma split_join ts :
  (∀ t, t ∈ ts → t ≠ [] ∧ ∀ c, c ∈ t → isspace c = false) →
  split (join (py " ") ts) = ts.
Proof.
  unfold split. induction ts as [|x ts IH]; intros H; [done|].
  destruct (H x) as [Hne Hx]; [apply elem_of_cons; by left|].
  assert (Hts : ∀ t, t ∈ ts → t ≠ [] ∧ ∀ c, c ∈ t → isspace c = false)
    by (intros t Ht; apply H, elem_of_cons; by right).
  destruct ts as [|y ts].
  - simpl. rewrite <- (app_nil_r x) at 1. rewrite split_from_word by done.
    simpl. by destruct x.
  - change (join (py " ") (x :: y :: ts))
      with (x ++ py " " ++ join (py " ") (y :: ts)).
    rewrite split_from_word by done.
    specialize (IH Hts). revert IH.
    generalize (join (py " ") (y :: ts)). intros r IH.
    simpl. rewrite IH. by destruct x.
Qed.

Lemma join_chars sep ts c :
  c ∈ join sep ts → c ∈ sep ∨ ∃ t, t ∈ ts ∧ c ∈ t.
Proof.
  induction ts as [|x ts IH]; simpl; [by intros ?%elem_of_nil|].
  destruct ts as [|y ts].
  - intros Hc. right. exists x. split; [apply elem_of_cons; by left | done].
  - intros [Hc|[Hc|Hc]%elem_of_app]%elem_of_app.
    + right. exists x. split; [apply elem_of_cons; by left | done].
    + by left.
    + destruct (IH Hc) as [?|(t & Ht & Hct)]; [by left|].
      right. exists t. split; [apply elem_of_cons; by right | done].
Qed.

(** ** [normalize] *)

Lemma normalize_tokens s t : t ∈ normalize s → is_token t.
Proof.
  unfold normalize, split. intros Ht.
  apply split_from_pieces in Ht as [Hne Hin]; [|by intros c ?%elem_of_nil].
  split; [done|]. intros c Hc.
  destruct (Hin c Hc) as [[?%elem_of_nil|Hk] Hsp]; [done|].
  apply list_elem_of_In, filter_In in Hk as [_ Hk]. by apply kept_not_space.
Qed.

Lemma lower_clean (l : str) :
  (∀ c, c ∈ l → c = 32%N ∨ alnum c = true) → lower l = l.
Proof.
  intros Hall. unfold lower. replace (is_ascii l) with true.
  - induction l as [|a l IH]; [done|]. simpl. f_equal.
    + destruct (Hall a) as [->|Ha]; [apply elem_of_cons; by left|done|].
      by apply alnum_ascii_lower.
    + apply IH. intros c Hc. apply Hall, elem_of_cons. by right.
  - symmetry. apply forallb_forall. intros c Hc%list_elem_of_In.
    destruct (Hall c Hc) as [->|Ha]; [done | by apply alnum_lt_128].
Qed.

Lemma re_sub_strip_clean (l : str) :
  (∀ c, c ∈ l → c = 32%N ∨ alnum c = true) → re_sub_strip l = l.
Proof.
  unfold re_sub_strip. induction l as [|a l IH]; intros Hall; [done|].
  assert (Ha : kept a = true).
  { destruct (Hall a) as [->|Ha]; [apply elem_of_cons; by left|done|].
    by apply alnum_kept. }
  simpl. rewrite Ha. f_equal. apply IH. intros c Hc.
  apply Hall, elem_of_cons. by right.
Qed.

Lemma normalize_join ts :
  (∀ t, t ∈ ts → is_token t) → normalize (join (py " ") ts) = ts.
Proof.
  intros Hts. unfold normalize.
  assert (Hall : ∀ c, c ∈ join (py " ") ts → c = 32%N ∨ alnum c = true).
  { intros c [Hc|(t & Ht & Hc)]%join_chars.
    - left. by apply list_elem_of_singleton in Hc.
    - right. by apply (Hts t Ht). }
  rewrite lower_clean, re_sub_strip_clean by done.
  apply split_join. intros t Ht. destruct (Hts t Ht) as [Hne Hal].
  split; [done|]. intros c Hc. by apply alnum_not_space, Hal.
Qed.

(** C8: every token produced by [normalize] is nonempty and made of the
    lowercase ASCII letters a-z and the digits 0-9 only; the empty string
    normalizes to the empty sequence; and "I WILL  review!!" normalizes to
    the same tokens as "i will review", namely i, will, review. *)
Theorem normalize_tokens_alnum :
  (∀ (s t : str), t ∈ normalize s →
     t ≠ [] ∧ ∀ c, c ∈ t → (97 ≤ c ≤ 122)%N ∨ (48 ≤ c ≤ 57)%N)
  ∧ normalize [] = []
  ∧ normalize (py "I WILL  review!!") = normalize (py "i will review")
  ∧ normalize (py "i will review") = [py "i"; py "will"; py "review"].
Proof.
  split; [|by vm_compute].
  intros s t [Hne Hal]%normalize_tokens. split; [done|].
  intros c Hc. by apply alnum_range, Hal.
Qed.

(** C9: joining the tokens of [normalize s] with single spaces and
    normalizing the result again yields [normalize s]. *)
Theorem normalize_idempotent (s : str) :
  normalize (join (py " ") (normalize s)) = normalize s.
Proof. apply normalize_join. intros t. apply normalize_tokens. Qed.

(** ** Loading *)

Lemma dict_get_lacks d (default : json) :
  py "message" ∉ d.*1 → dict_get d (py "message") default = default.
Proof.
  unfold dict_get. induction d as [|[k v] d IH]; [done|]. simpl. intros Hk.
  rewrite bool_decide_eq_false_2.
  - apply IH. intros H. apply Hk, elem_of_cons. by right.
  - intros ->. apply Hk, elem_of_cons. by left.
Qed.

Lemma normalize_nil : normalize [] = [].
Proof. reflexivity. Qed.

Lemma load_loop_app l1 : ∀ l2 acc,
  load_loop (l1 ++ l2) acc = acc' ← load_loop l1 acc; load_loop l2 acc'.
Proof.
  induction l1 as [|item l1 IH]; intros l2 acc; [done|]. simpl.
  destruct (item_get_message item) as [msg|e]; [|done]. simpl.
  destruct (normalize_value msg) as [tokens|e]; [|done]. simpl.
  destruct (N <=? len tokens); apply IH.
Qed.

Lemma load_loop_skip item rest acc :
  lacks_message item → load_loop (item :: rest) acc = load_loop rest acc.
Proof.
  intros (d & -> & Hd). simpl. by rewrite dict_get_lacks.
Qed.

Lemma load_loop_short l : ∀ acc,
  Forall short_record l → load_loop l acc = Return acc.
Proof.
  induction l as [|item l IH]; intros acc Hl; [done|].
  apply Forall_cons in Hl as [(d & s & -> & Hs & Hlen) Hl]. simpl.
  rewrite Hs. simpl.
  destruct (Z.leb_spec N (len (normalize s))); [lia|]. by apply IH.
Qed.

Lemma lacks_message_short item : lacks_message item → short_record item.
Proof.
  intros (d & -> & Hd). exists d, []. split; [done|].
  split; [by apply dict_get_lacks|]. by rewrite normalize_nil.
Qed.

(** C5: when the corpus is empty, that is when it has no records or the
    text of every record normalizes to fewer than N = 3 tokens, the
    returned Suggestion is the empty string, for every user input and
    max_words. *)
Theorem empty_corpus_empty_suggestion (records : list json)
    (user_input : str) (max_words : Z) :
  Forall short_record records →
  get_contextual_suggestion (Loaded (JList records)) user_input max_words
  = Return [].
Proof.
  intros H. unfold get_contextual_suggestion, load_sentences. simpl.
  by rewrite load_loop_short.
Qed.

(** C10: a record that lacks a "message" key is read as having empty
    text; it is skipped without raising and contributes no Sentence, so
    that a corpus whose records all lack the field yields the empty
    Suggestion, as the corpus without records does. *)
Theorem record_without_message_skipped :
  (∀ item, lacks_message item → item_get_message item = Return (JStr []))
  ∧ (∀ before item after, lacks_message item →
       load_sentences (Loaded (JList (before ++ item :: after)))
       = load_sentences (Loaded (JList (before ++ after))))
  ∧ (∀ records user_input max_words, Forall lacks_message records →
       load_sentences (Loaded (JList records)) = Return []
       ∧ get_contextual_suggestion (Loaded (JList records)) user_input max_words
         = Return []
       ∧ get_contextual_suggestion (Loaded (JList [])) user_input max_words
         = Return []).
Proof.
  split; [|split].
  - intros item (d & -> & Hd). simpl. by rewrite dict_get_lacks.
  - intros before item after Hitem. simpl.
    rewrite !load_loop_app. destruct (load_loop before []) as [acc|e]; [|done].
    simpl. by apply load_loop_skip.
  - intros records user_input max_words Hrec.
    assert (Hshort : Forall short_record records)
      by (eapply Forall_impl; [exact Hrec | apply lacks_message_short]).
    split; [|split].
    + simpl. by apply load_loop_short.
    + unfold get_contextual_suggestion, load_sentences. simpl.
      by rewrite load_loop_short.
    + reflexivity.
Qed.

(** ** The walk *)

Lemma defaultdict_getitem_present (m : ngram_model) (k : list str) (c : counter) :
  m !! k = Some c → defaultdict_getitem m k = (c, m).
Proof. unfold defaultdict_getitem. by intros ->. Qed.

Lemma autocomplete_loop_frame (iters : list Z) :
  ∀ (m : ngram_model) (prefix suggestion : list str),
  (autocomplete_loop iters m prefix suggestion).2 = m.
Proof.
  induction iters as [|i iters IH]; intros m prefix suggestion; [done|].
  simpl. destruct (m !! prefix) as [c|] eqn:Hc; [|done].
  rewrite (defaultdict_getitem_present _ _ _ Hc).
  destruct (most_common_1 c) as [|[next_word n] ?]; [done|]. apply IH.
Qed.

Lemma autocomplete_loop_miss (iters : list Z) (m : ngram_model)
    (prefix suggestion : list str) :
  m !! prefix = None →
  autocomplete_loop iters m prefix suggestion = (Return suggestion, m).
Proof. intros H. destruct iters; [done|]. simpl. by rewrite H. Qed.

(** C4: when the user input normalizes to fewer than N - 1 = 2 tokens,
    [autocomplete] returns the empty string without raising, whatever the
    model and max_words. *)
Theorem short_input_empty_suggestion (model : ngram_model) (user_input : str)
    (max_words : Z) :
  len (normalize user_input) < N - 1 →
  autocomplete model user_input max_words = Return [].
Proof.
  intros H. unfold autocomplete, autocomplete_run.
  destruct (Z.ltb_spec (len (normalize user_input)) (N - 1)); [done|lia].
Qed.

(** C7: [autocomplete] leaves the model as it found it, no key being
    added by the lookup, and a Context that is absent from the model ends
    the walk with the Suggestion so far instead of raising. *)
Theorem autocomplete_frame :
  (∀ (model : ngram_model) user_input max_words,
     (autocomplete_run model user_input max_words).2 = model)
  ∧ (∀ (iters : list Z) (model : ngram_model) (prefix suggestion : list str),
       model !! prefix = None →
       autocomplete_loop iters model prefix suggestion
       = (Return suggestion, model))
  ∧ (∀ (model : ngram_model) user_input max_words,
       N - 1 ≤ len (normalize user_input) →
       model !! slice_from (normalize user_input) (- (N - 1)) = None →
       autocomplete_run model user_input max_words = (Return [], model)).
Proof.
  split; [|split].
  - intros model user_input max_words. unfold autocomplete_run.
    destruct (len (normalize user_input) <? N - 1); [done|].
    pose proof (autocomplete_loop_frame (range max_words) model
      (slice_from (normalize user_input) (- (N - 1))) []) as H.
    destruct (autocomplete_loop _ _ _ _) as [r m']. exact H.
  - intros. by apply autocomplete_loop_miss.
  - intros model user_input max_words Hlen Hmiss. unfold autocomplete_run.
    destruct (Z.ltb_spec (len (normalize user_input)) (N - 1)); [lia|].
    by rewrite autocomplete_loop_miss.
Qed.

Lemma max_by_count_in (others : counter) : ∀ first,
  max_by_count first others ∈ first :: others.
Proof.
  unfold max_by_count. induction others as [|kv others IH]; intros first; simpl.
  - apply elem_of_cons. by left.
  - destruct (first.2 <? kv.2).
    + apply elem_of_cons. right. apply IH.
    + specialize (IH first). apply elem_of_cons in IH as [->|IH].
      * apply elem_of_cons. by left.
      * apply elem_of_cons. right. apply elem_of_cons. by right.
Qed.

Lemma most_common_1_in (c : counter) :
  c ≠ [] → ∃ w n, most_common_1 c = [(w, n)] ∧ (w, n) ∈ c.
Proof.
  destruct c as [|kv c]; [done|]. intros _. simpl.
  destruct (max_by_count kv c) as [w n] eqn:E. exists w, n. split; [done|].
  rewrite <- E. apply max_by_count_in.
Qed.

Lemma autocomplete_loop_total (iters : list Z) :
  ∀ (m : ngram_model) (prefix suggestion : list str),
  wf_model m →
  ∃ ws, autocomplete_loop iters m prefix suggestion
        = (Return (suggestion ++ ws), m)
        ∧ (length ws ≤ length iters)%nat
        ∧ ∀ t, t ∈ ws → is_token t.
Proof.
  induction iters as [|i iters IH]; intros m prefix suggestion Hwf.
  - exists []. rewrite app_nil_r. split; [done|]. split; [done|].
    by intros t ?%elem_of_nil.
  - simpl. destruct (m !! prefix) as [c|] eqn:Hc.
    + rewrite (defaultdict_getitem_present _ _ _ Hc).
      destruct (Hwf _ _ Hc) as [Hne Htok].
      destruct (most_common_1_in c Hne) as (w & n & -> & Hin).
      destruct (IH m (slice_from prefix 1 ++ [w]) (suggestion ++ [w]) Hwf)
        as (ws & -> & Hlen & Hws).
      exists (w :: ws). rewrite <- app_assoc. split; [done|].
      split; [simpl; lia|].
      intros t [->|Ht]%elem_of_cons; [by eapply Htok | by apply Hws].
    + exists []. rewrite app_nil_r. split; [done|]. split; [simpl; lia|].
      by intros t ?%elem_of_nil.
Qed.

Lemma length_range n : length (range n) = Z.to_nat n.
Proof. unfold range. by rewrite length_map, length_seq. Qed.

Lemma autocomplete_bounded_aux (model : ngram_model) (user_input : str)
    (max_words : Z) :
  wf_model model → 0 ≤ max_words →
  ∃ ws, autocomplete model user_input max_words = Return (join (py " ") ws)
        ∧ split (join (py " ") ws) = ws
        ∧ len ws ≤ max_words.
Proof.
  intros Hwf Hk. unfold autocomplete, autocomplete_run.
  destruct (len (normalize user_input) <? N - 1).
  - exists []. split; [done|]. split; [done|]. unfold len. simpl. lia.
  - destruct (autocomplete_loop_total (range max_words) model
      (slice_from (normalize user_input) (- (N - 1))) [] Hwf)
      as (ws & -> & Hlen & Hws).
    exists ws. split; [done|]. split.
    + apply split_join. intros t Ht. destruct (Hws t Ht) as [Hne Hal].
      split; [done|]. intros c Hc. by apply alnum_not_space, Hal.
    + rewrite length_range in Hlen. unfold len. lia.
Qed.

(** C6, as the code has it: for every model in which each Context holds at
    least one next-Token and the next-Tokens are Tokens, every user input
    and every max_words >= 0, [autocomplete] returns (the loop runs over
    [range(max_words)], so a Context that comes back cannot keep it
    going), and the returned string is at most max_words tokens joined by
    single spaces. *)
Theorem autocomplete_bounded (model : ngram_model) (user_input : str)
    (max_words : Z) :
  wf_model model → 0 ≤ max_words →
  ∃ ws, autocomplete model user_input max_words = Return (join (py " ") ws)
        ∧ split (join (py " ") ws) = ws
        ∧ len ws ≤ max_words.
Proof. apply autocomplete_bounded_aux. Qed.

(** ** The unparseable data source *)



(** ** The counting pass *)

Lemma elem_of_range i n : i ∈ range n → 0 ≤ i < n.
Proof.
  unfold range. intros (k & <- & Hk)%list_elem_of_In%in_map_iff.
  apply in_seq in Hk. lia.
Qed.

Lemma getitem_in_range {A : Type} (l : list A) j :
  0 ≤ j < len l → ∃ x, getitem l j = Return x.
Proof.
  intros Hj. unfold getitem.
  destruct (Z.ltb_spec j 0); [lia|].
  destruct (Z.leb_spec 0 j); [|lia].
  destruct (Z.ltb_spec j (len l)); [|lia]. simpl.
  destruct (l !! Z.to_nat j) as [x|] eqn:E; [by exists x|].
  apply lookup_ge_None in E. unfold len in *. lia.
Qed.

Lemma count_ngram_records (tokens : list str) (m : ngram_model) (i : Z) :
  0 ≤ i < len tokens - N + 1 →
  ∃ w, getitem tokens (i + N - 1) = Return w
       ∧ count_ngram tokens m i
         = Return (record_ngram m (slice tokens i (i + N - 1), w)).
Proof.
  intros Hi. destruct (getitem_in_range tokens (i + N - 1)) as [w Hw];
    [unfold N in *; lia|].
  exists w. split; [done|]. unfold count_ngram, record_ngram.
  rewrite Hw. simpl. unfold defaultdict_getitem.
  destruct (m !! slice tokens i (i + N - 1)) as [c|]; simpl; [done|].
  by rewrite insert_insert_eq.
Qed.

Lemma for_each_count_ngram (tokens : list str) (indices : list Z) :
  ∀ m : ngram_model,
  (∀ i, i ∈ indices → 0 ≤ i < len tokens - N + 1) →
  for_each (count_ngram tokens) indices m
  = Return (foldl record_ngram m
      (flat_map
         (λ i, match getitem tokens (i + N - 1) with
               | Return next_word => [(slice tokens i (i + N - 1), next_word)]
               | Raise _ => []
               end)
         indices)).
Proof.
  induction indices as [|i indices IH]; intros m Hin; [done|]. simpl.
  destruct (count_ngram_records tokens m i) as (w & Hw & ->);
    [apply Hin, elem_of_cons; by left|].
  rewrite Hw. simpl. apply IH. intros j Hj. apply Hin, elem_of_cons. by right.
Qed.

Lemma for_each_sentences (sentences : list (list str)) : ∀ m : ngram_model,
  for_each
    (λ model tokens,
       for_each (count_ngram tokens) (range (len tokens - N + 1)) model)
    sentences m
  = Return (foldl record_ngram m (counting_pass sentences)).
Proof.
  unfold counting_pass.
  induction sentences as [|tokens sentences IH]; intros m; [done|]. simpl.
  rewrite for_each_count_ngram by (intros i Hi; by apply elem_of_range). simpl.
  rewrite IH. by rewrite foldl_app.
Qed.

Lemma build_ngram_model_pass (sentences : list (list str)) :
  build_ngram_model sentences
  = Return (foldl record_ngram ∅ (counting_pass sentences)).
Proof. apply for_each_sentences. Qed.

Lemma recorded_cons (ctx : list str) (p : list str * str) pass :
  recorded ctx (p :: pass)
  = if bool_decide (p.1 = ctx) then p.2 :: recorded ctx pass
    else recorded ctx pass.
Proof. unfold recorded. simpl. by destruct (bool_decide (p.1 = ctx)). Qed.

Lemma foldl_record_lookup (pass : list (list str * str)) :
  ∀ (m : ngram_model) (ctx : list str),
  foldl record_ngram m pass !! ctx
  = match recorded ctx pass with
    | [] => m !! ctx
    | ws => Some (foldl counter_incr (default [] (m !! ctx)) ws)
    end.
Proof.
  induction pass as [|p pass IH]; intros m ctx; [done|].
  simpl. rewrite IH, recorded_cons. unfold record_ngram.
  destruct (bool_decide_reflect (p.1 = ctx)) as [->|Hne].
  - rewrite lookup_insert_eq. simpl. by destruct (recorded ctx pass).
  - by rewrite lookup_insert_ne.
Qed.

(** ** The Counter *)

Lemma counter_set_keys (c : counter) (w : str) (n : Z) :
  (counter_set c w n).*1 = if decide (w ∈ c.*1) then c.*1 else c.*1 ++ [w].
Proof.
  induction c as [|[k v] c IH].
  - destruct (decide (w ∈ ([] : counter).*1)) as [H|_]; [|done].
    by apply elem_of_nil in H.
  - change (((k, v) :: c).*1) with (k :: c.*1).
    change (counter_set ((k, v) :: c) w n)
      with (if bool_decide (k = w) then (w, n) :: c
            else (k, v) :: counter_set c w n).
    destruct (bool_decide_reflect (k = w)) as [->|Hne].
    + rewrite decide_True by (apply elem_of_cons; by left). done.
    + change (((k, v) :: counter_set c w n).*1)
        with (k :: (counter_set c w n).*1).
      rewrite IH. destruct (decide (w ∈ c.*1)) as [Hin|Hin].
      * by rewrite decide_True by (apply elem_of_cons; by right).
      * rewrite decide_False; [done|].
        intros [?|?]%elem_of_cons; [by apply Hne | by apply Hin].
Qed.

Lemma counter_get_set (c : counter) (w : str) (n : Z) (w' : str) :
  counter_get (counter_set c w n) w'
  = if decide (w = w') then n else counter_get c w'.
Proof.
  unfold counter_get. induction c as [|[k v] c IH]; simpl.
  - destruct (decide (w = w')) as [->|Hne].
    + by rewrite bool_decide_eq_true_2.
    + by rewrite bool_decide_eq_false_2.
  - destruct (bool_decide_reflect (k = w)) as [->|Hkw]; simpl.
    + destruct (decide (w = w')) as [->|Hne].
      * by rewrite bool_decide_eq_true_2.
      * by rewrite bool_decide_eq_false_2.
    + destruct (bool_decide_reflect (k = w')) as [->|Hkw'].
      * by rewrite decide_False by (intros ->; by apply Hkw).
      * apply IH.
Qed.

Lemma counter_get_entry (c : counter) (w : str) (n : Z) :
  NoDup c.*1 → (w, n) ∈ c → counter_get c w = n.
Proof.
  unfold counter_get. induction c as [|[k v] c IH]; intros Hnd Hin.
  - by apply elem_of_nil in Hin.
  - simpl in *. apply NoDup_cons in Hnd as [Hk Hnd].
    apply elem_of_cons in Hin as [[= <- <-]|Hin].
    + by rewrite bool_decide_eq_true_2.
    + rewrite bool_decide_eq_false_2; [by apply IH|].
      intros ->. apply Hk. apply list_elem_of_fmap. by exists (w, n).
Qed.

Lemma occurrences_snoc (w : str) (ws : list str) (x : str) :
  occurrences w (ws ++ [x])
  = occurrences w ws + (if decide (x = w) then 1 else 0).
Proof.
  unfold occurrences, len. rewrite List.filter_app, length_app. simpl.
  destruct (decide (x = w)) as [->|Hne].
  - rewrite bool_decide_eq_true_2 by done. simpl. lia.
  - rewrite bool_decide_eq_false_2 by done. simpl. lia.
Qed.

Lemma counter_get_counted (ws : list str) : ∀ w : str,
  counter_get (foldl counter_incr [] ws) w = occurrences w ws.
Proof.
  induction ws as [|x ws IH] using rev_ind; intros w; [done|].
  rewrite foldl_app, occurrences_snoc. simpl. unfold counter_incr at 1.
  rewrite counter_get_set. destruct (decide (x = w)) as [->|Hne].
  - by rewrite IH.
  - rewrite IH. lia.
Qed.

Lemma counter_keys_snoc (ws : list str) (x : str) :
  (foldl counter_incr [] (ws ++ [x])).*1
  = if decide (x ∈ (foldl counter_incr [] ws).*1)
    then (foldl counter_incr [] ws).*1
    else (foldl counter_incr [] ws).*1 ++ [x].
Proof. rewrite foldl_app. simpl. apply counter_set_keys. Qed.

(** The keys of the Counter are the recorded tokens, each once, in the
    order of their first recording. *)
Lemma counter_keys_first_recorded (ws : list str) :
  NoDup (foldl counter_incr [] ws).*1
  ∧ (∀ w, w ∈ (foldl counter_incr [] ws).*1 ↔ w ∈ ws)
  ∧ ∀ k1 w k2, (foldl counter_incr [] ws).*1 = k1 ++ w :: k2 →
      ∃ before after, ws = before ++ w :: after ∧ (w ∉ before)
                      ∧ ∀ w', w' ∈ before → w' ∈ k1.
Proof.
  induction ws as [|x ws (Hnd & Hmem & Hord)] using rev_ind.
  - split; [constructor|]. split; [done|].
    intros k1 w k2 H. by destruct k1.
  - rewrite counter_keys_snoc.
    destruct (decide (x ∈ (foldl counter_incr [] ws).*1)) as [Hx|Hx].
    + split; [done|]. split.
      * intros w. rewrite Hmem, elem_of_app, list_elem_of_singleton.
        split; [by left|]. intros [?| ->]; [done|by apply Hmem].
      * intros k1 w k2 Hk.
        destruct (Hord k1 w k2 Hk) as (before & after & -> & Hnb & Hb).
        exists before, (after ++ [x]). split; [|done].
        by rewrite <- app_assoc.
    + split; [|split].
      * apply NoDup_app. split; [done|]. split; [|apply NoDup_singleton].
        intros w Hw ->%list_elem_of_singleton. by apply Hx.
      * intros w. rewrite !elem_of_app, Hmem. done.
      * intros k1 w k2 Hk. destruct k2 as [|y k2 _] using rev_ind.
        -- apply app_inj_tail in Hk as [Hk ->].
           exists ws, []. split; [done|]. split.
           ++ intros Hin. by apply Hx, Hmem.
           ++ intros w' Hw'. rewrite <- Hk. by apply Hmem.
        -- rewrite app_comm_cons, app_assoc in Hk.
           apply app_inj_tail in Hk as [Hk <-].
           destruct (Hord k1 w k2 Hk) as (before & after & -> & Hnb & Hb).
           exists before, (after ++ [x]). split; [|done].
           by rewrite <- app_assoc.
Qed.

(** ** The selection *)

Lemma max_by_count_first (others : counter) : ∀ (k1 : counter) best (k2 : counter),
  (∀ kv, kv ∈ k1 → kv.2 < best.2) →
  (∀ kv, kv ∈ k2 → kv.2 ≤ best.2) →
  ∃ (k1' : counter) w n (k2' : counter),
    k1 ++ best :: k2 ++ others = k1' ++ (w, n) :: k2'
    ∧ max_by_count best others = (w, n)
    ∧ (∀ kv, kv ∈ k1' → kv.2 < n)
    ∧ (∀ kv, kv ∈ k2' → kv.2 ≤ n).
Proof.
  unfold max_by_count.
  induction others as [|kv others IH]; intros k1 best k2 H1 H2.
  - exists k1, best.1, best.2, k2. rewrite app_nil_r. by destruct best.
  - simpl. destruct (Z.ltb_spec best.2 kv.2) as [Hlt|Hge].
    + destruct (IH (k1 ++ best :: k2) kv []) as (k1' & w & n & k2' & E & ?).
      * intros x [Hx|[->|Hx]%elem_of_cons]%elem_of_app.
        -- specialize (H1 x Hx). lia.
        -- done.
        -- specialize (H2 x Hx). lia.
      * by intros x ?%elem_of_nil.
      * exists k1', w, n, k2'. split; [|done]. rewrite <- E.
        by rewrite <- app_assoc.
    + destruct (IH k1 best (k2 ++ [kv])) as (k1' & w & n & k2' & E & ?).
      * done.
      * intros x [Hx| ->%list_elem_of_singleton]%elem_of_app; [by apply H2|done].
      * exists k1', w, n, k2'. split; [|done]. rewrite <- E.
        by rewrite <- app_assoc.
Qed.

Lemma most_common_1_first (c : counter) :
  c ≠ [] →
  ∃ (k1 : counter) w n (k2 : counter),
    c = k1 ++ (w, n) :: k2
    ∧ most_common_1 c = [(w, n)]
    ∧ (∀ kv, kv ∈ k1 → kv.2 < n)
    ∧ (∀ kv, kv ∈ k2 → kv.2 ≤ n).
Proof.
  destruct c as [|kv c]; [done|]. intros _.
  destruct (max_by_count_first c [] kv []) as (k1 & w & n & k2 & E & Hm & ?);
    [by intros x ?%elem_of_nil | by intros x ?%elem_of_nil |].
  exists k1, w, n, k2. simpl in *. by rewrite Hm.
Qed.

Lemma model_lookup_recorded (sentences : list (list str)) (ctx : list str)
    (c : counter) :
  foldl record_ngram ∅ (counting_pass sentences) !! ctx = Some c →
  recorded ctx (counting_pass sentences) ≠ []
  ∧ c = foldl counter_incr [] (recorded ctx (counting_pass sentences)).
Proof.
  rewrite foldl_record_lookup, lookup_empty.
  destruct (recorded ctx (counting_pass sentences)) as [|x ws]; [done|].
  intros [= <-]. by split.
Qed.

(** C3: in a model built by [build_ngram_model], at every Context the
    model holds, the next-Token that [autocomplete] selects (the one token
    its walk appends there, and the string it returns for max_words = 1 on
    an input that ends with the Context) has the maximum count among the
    next-Tokens of that Context, and every next-Token recorded for the
    Context before the selected one was first recorded has a strictly
    smaller count: among those tied at the maximum, the selected one is
    the first recorded. *)
Theorem most_common_first_recorded (sentences : list (list str)) :
  ∃ model : ngram_model,
    build_ngram_model sentences = Return model
    ∧ ∀ (ctx : list str) (c : counter), model !! ctx = Some c →
        ∃ (w : str) (n : Z),
          most_common_1 c = [(w, n)]
          ∧ (∀ (i : Z) (suggestion : list str),
               autocomplete_loop [i] model ctx suggestion
               = (Return (suggestion ++ [w]), model))
          ∧ (∀ user_input : str,
               N - 1 ≤ len (normalize user_input) →
               slice_from (normalize user_input) (- (N - 1)) = ctx →
               autocomplete model user_input 1 = Return w)
          ∧ (∀ (i : Z) (iters : list Z) (suggestion : list str),
               autocomplete_loop (i :: iters) model ctx suggestion
               = autocomplete_loop iters model
                   (slice_from ctx 1 ++ [w]) (suggestion ++ [w]))
          ∧ (w, n) ∈ c
          ∧ n = occurrences w (recorded ctx (counting_pass sentences))
          ∧ (∀ w' n', (w', n') ∈ c → n' ≤ n)
          ∧ (∀ w', counter_get c w'
                   = occurrences w' (recorded ctx (counting_pass sentences)))
          ∧ ∃ before after,
              recorded ctx (counting_pass sentences) = before ++ w :: after
              ∧ (w ∉ before)
              ∧ ∀ w', w' ∈ before →
                  occurrences w' (recorded ctx (counting_pass sentences)) < n.
Proof.
  exists (foldl record_ngram ∅ (counting_pass sentences)).
  split; [apply build_ngram_model_pass|].
  intros ctx c Hc. destruct (model_lookup_recorded _ _ _ Hc) as [Hne Hcw].
  set (ws := recorded ctx (counting_pass sentences)) in *.
  destruct (counter_keys_first_recorded ws) as (Hnd & Hmem & Hord).
  rewrite <- Hcw in Hnd, Hmem, Hord.
  assert (Hget : ∀ w', counter_get c w' = occurrences w' ws)
    by (intros w'; rewrite Hcw; apply counter_get_counted).
  assert (Hcne : c ≠ []).
  { intros ->. destruct ws as [|x ws']; [done|].
    assert (Hx : x ∈ ([] : counter).*1) by (apply Hmem, elem_of_cons; by left).
    by apply elem_of_nil in Hx. }
  destruct (most_common_1_first c Hcne) as (k1 & w & n & k2 & Ec & Hm & H1 & H2).
  assert (Hwn : (w, n) ∈ c).
  { rewrite Ec. apply elem_of_app. right. apply elem_of_cons. by left. }
  assert (Hone : ∀ (i : Z) (suggestion : list str),
            autocomplete_loop [i]
              (foldl record_ngram ∅ (counting_pass sentences)) ctx suggestion
            = (Return (suggestion ++ [w]),
               foldl record_ngram ∅ (counting_pass sentences))).
  { intros i suggestion. simpl. rewrite Hc.
    rewrite (defaultdict_getitem_present _ _ _ Hc). by rewrite Hm. }
  exists w, n. split; [done|]. split; [exact Hone|].
  split; [|split; [|split; [done|split; [|split; [|split; [done|]]]]]].
  - intros user_input Hlen Hctx. unfold autocomplete, autocomplete_run.
    destruct (Z.ltb_spec (len (normalize user_input)) (N - 1)); [lia|].
    rewrite Hctx. change (range 1) with [0]. by rewrite Hone.
  - intros i iters suggestion. simpl. rewrite Hc.
    rewrite (defaultdict_getitem_present _ _ _ Hc). by rewrite Hm.
  - rewrite <- Hget. symmetry. by apply counter_get_entry.
  - intros w' n'. rewrite Ec.
    intros [Hin|[[= -> ->]|Hin]%elem_of_cons]%elem_of_app.
    + specialize (H1 _ Hin). simpl in H1. lia.
    + lia.
    + apply (H2 _ Hin).
  - destruct (Hord (k1.*1) w (k2.*1)) as (before & after & Hws & Hnb & Hb).
    { by rewrite Ec, fmap_app, fmap_cons. }
    exists before, after. split; [done|]. split; [done|].
    intros w' Hw'. apply Hb, list_elem_of_fmap in Hw' as ([w0 n'] & -> & Hin).
    simpl. rewrite <- Hget.
    rewrite (counter_get_entry c w0 n' Hnd).
    + apply (H1 _ Hin).
    + rewrite Ec. apply elem_of_app. by left.
Qed.

(** ** Models of the pipeline are well formed *)

Lemma getitem_elem {A : Type} (l : list A) j x :
  getitem l j = Return x → x ∈ l.
Proof.
  unfold getitem.
  destruct ((0 <=? (if j <? 0 then j + len l else j))
            && ((if j <? 0 then j + len l else j) <? len l)); [|done].
  destruct (l !! Z.to_nat _) as [y|] eqn:E; [|done].
  intros [= <-]. by eapply list_elem_of_lookup_2.
Qed.

Lemma recorded_elem (ctx : list str) (pass : list (list str * str)) (w : str) :
  w ∈ recorded ctx pass → ∃ p, p ∈ pass ∧ p.2 = w.
Proof.
  unfold recorded. intros ([k w'] & -> & Hin)%list_elem_of_fmap.
  apply list_elem_of_In, filter_In in Hin as [Hin _].
  exists (k, w'). split; [by apply list_elem_of_In | done].
Qed.

Lemma counting_pass_elem (sentences : list (list str)) (p : list str * str) :
  p ∈ counting_pass sentences → ∃ tokens, tokens ∈ sentences ∧ p.2 ∈ tokens.
Proof.
  unfold counting_pass, ngrams.
  intros (tokens & Ht & Hp)%list_elem_of_In%in_flat_map.
  exists tokens. split; [by apply list_elem_of_In|].
  apply in_flat_map in Hp as (i & _ & Hp).
  destruct (getitem tokens (i + N - 1)) as [w|e] eqn:E; [|by destruct Hp].
  destruct Hp as [<-|[]]. simpl. by eapply getitem_elem.
Qed.

Lemma build_ngram_model_wf (sentences : list (list str)) (m : ngram_model) :
  (∀ tokens t, tokens ∈ sentences → t ∈ tokens → is_token t) →
  build_ngram_model sentences = Return m → wf_model m.
Proof.
  intros Htok. rewrite build_ngram_model_pass. intros [= <-] ctx c Hc.
  destruct (model_lookup_recorded _ _ _ Hc) as [Hne Hcw].
  destruct (counter_keys_first_recorded
              (recorded ctx (counting_pass sentences))) as (_ & Hmem & _).
  rewrite <- Hcw in Hmem. split.
  - intros ->. destruct (recorded ctx (counting_pass sentences)) as [|x ws];
      [done|].
    assert (Hx : x ∈ ([] : counter).*1) by (apply Hmem, elem_of_cons; by left).
    by apply elem_of_nil in Hx.
  - intros w n Hin.
    assert (Hw : w ∈ c.*1) by (apply list_elem_of_fmap; by exists (w, n)).
    apply Hmem, recorded_elem in Hw as (p & Hp & <-).
    apply counting_pass_elem in Hp as (tokens & Ht & Hp). by eapply Htok.
Qed.

Lemma load_loop_tokens (items : list json) :
  ∀ acc sentences,
  (∀ tokens t, tokens ∈ acc → t ∈ tokens → is_token t) →
  load_loop items acc = Return sentences →
  ∀ tokens t, tokens ∈ sentences → t ∈ tokens → is_token t.
Proof.
  induction items as [|item items IH]; intros acc sentences Hacc; simpl.
  - by intros [= <-].
  - destruct (item_get_message item) as [msg|e]; [|done]. simpl.
    destruct msg as [ | | | |s| | ]; try done. simpl.
    destruct (N <=? len (normalize s)); [|by apply IH].
    apply IH. intros tokens t [Hin| ->%list_elem_of_singleton]%elem_of_app.
    + by apply Hacc.
    + apply normalize_tokens.
Qed.

(** Whatever the data source, a returned Suggestion is at most max_words
    tokens joined by single spaces. *)
Lemma suggestion_bounded (path : source) (user_input : str) (max_words : Z)
    (s : str) :
  0 ≤ max_words →
  get_contextual_suggestion path user_input max_words = Return s →
  ∃ ws, s = join (py " ") ws ∧ split s = ws ∧ len ws ≤ max_words.
Proof.
  intros Hk. unfold get_contextual_suggestion.
  destruct (load_sentences path) as [sentences|e] eqn:Hload; [|done]. simpl.
  destruct sentences as [|s0 sentences].
  { intros [= <-]. exists []. split; [done|]. split; [done|].
    unfold len. simpl. lia. }
  destruct (build_ngram_model (s0 :: sentences)) as [m|e] eqn:Hm; [|done].
  simpl. intros Hs.
  assert (Hwf : wf_model m).
  { eapply build_ngram_model_wf; [|exact Hm].
    destruct path as [ | | | |data]; try done. simpl in Hload.
    destruct (iterate data) as [items|e]; [|done]. simpl in Hload.
    eapply load_loop_tokens; [|exact Hload]. by intros tokens t ?%elem_of_nil. }
  destruct (autocomplete_bounded_aux m user_input max_words Hwf Hk)
    as (ws & Hws & Hsplit & Hlen).
  rewrite Hs in Hws. injection Hws as ->. by exists ws.
Qed.

(** ** The scenario *)

(** C2: for the corpus of the two messages "I will review the document
    today" and "I will send the review today", in that order, the user
    input "I will" with max_words = 5 returns "review the document
    today". *)
Theorem two_messages_scenario :
  get_contextual_suggestion (Loaded two_messages) (py "I will") 5
  = Return (py "review the document today").
Proof. by vm_compute. Qed.

(** * Further properties of the engine *)

(** ** The counting pass is the sliding window *)

Lemma range_succ n : 0 ≤ n → range (n + 1) = 0 :: List.map Z.succ (range n).
Proof.
  intros Hn. unfold range.
  replace (Z.to_nat (n + 1)) with (S (Z.to_nat n)) by lia.
  simpl. f_equal. rewrite <- seq_shift, !List.map_map.
  apply List.map_ext. intros k. lia.
Qed.

Lemma len_cons {A : Type} (x : A) (l : list A) : len (x :: l) = len l + 1.
Proof. unfold len. simpl. lia. Qed.

Lemma len_nonneg {A : Type} (l : list A) : 0 ≤ len l.
Proof. unfold len. lia. Qed.

Lemma getitem_cons {A : Type} (a : A) (l : list A) j :
  0 ≤ j → getitem (a :: l) (j + 1) = getitem l j.
Proof.
  intros Hj. unfold getitem. rewrite len_cons.
  destruct (Z.ltb_spec (j + 1) 0); [lia|].
  destruct (Z.ltb_spec j 0); [lia|].
  destruct (Z.leb_spec 0 (j + 1)); [|lia].
  destruct (Z.leb_spec 0 j); [|lia].
  replace (Z.to_nat (j + 1)) with (S (Z.to_nat j)) by lia.
  destruct (Z.ltb_spec (j + 1) (len l + 1)), (Z.ltb_spec j (len l));
    try lia; done.
Qed.

Lemma getitem_head {A : Type} (a : A) (l : list A) : getitem (a :: l) 0 = Return a.
Proof.
  unfold getitem. rewrite len_cons. pose proof (len_nonneg l).
  simpl. destruct (Z.ltb_spec 0 (len l + 1)); [done|lia].
Qed.

Lemma slice_cons {A : Type} (a : A) (l : list A) lo hi :
  0 ≤ lo → 0 ≤ hi → slice (a :: l) (lo + 1) (hi + 1) = slice l lo hi.
Proof.
  intros Hlo Hhi. unfold slice, slice_bound. rewrite len_cons.
  destruct (Z.ltb_spec (lo + 1) 0); [lia|].
  destruct (Z.ltb_spec (hi + 1) 0); [lia|].
  destruct (Z.ltb_spec lo 0); [lia|].
  destruct (Z.ltb_spec hi 0); [lia|].
  pose proof (len_nonneg l).
  replace (Z.to_nat (Z.min (lo + 1) (len l + 1)))
    with (S (Z.to_nat (Z.min lo (len l)))) by lia.
  replace (Z.min (hi + 1) (len l + 1) - Z.min (lo + 1) (len l + 1))
    with (Z.min hi (len l) - Z.min lo (len l)) by lia.
  done.
Qed.

Lemma slice_head {A : Type} (a b : A) (l : list A) :
  slice (a :: b :: l) 0 2 = [a; b].
Proof.
  unfold slice, slice_bound. rewrite !len_cons. pose proof (len_nonneg l).
  simpl (0 <? 0). simpl (2 <? 0). cbv iota.
  replace (Z.min 0 (len l + 1 + 1)) with 0 by lia.
  replace (Z.min 2 (len l + 1 + 1)) with 2 by lia.
  done.
Qed.

Lemma flat_map_ext_elem {A B : Type} (f g : A → list B) (l : list A) :
  (∀ x, x ∈ l → f x = g x) → flat_map f l = flat_map g l.
Proof.
  induction l as [|x l IH]; intros H; [done|]. simpl.
  rewrite (H x) by (apply elem_of_cons; by left).
  rewrite IH; [done|]. intros y Hy. apply H, elem_of_cons. by right.
Qed.

Lemma flat_map_map_compose {A B C : Type} (f : B → list C) (h : A → B)
    (l : list A) :
  flat_map f (List.map h l) = flat_map (λ x, f (h x)) l.
Proof. induction l as [|x l IH]; [done|]. simpl. by rewrite IH. Qed.

Lemma ngrams_trigrams (tokens : list str) : ngrams tokens = trigrams tokens.
Proof.
  induction tokens as [|a rest IH]; [done|].
  destruct rest as [|b [|w rest']]; [done|done|].
  change (trigrams (a :: b :: w :: rest'))
    with (([a; b], w) :: trigrams (b :: w :: rest')).
  rewrite <- IH. unfold ngrams.
  replace (len (a :: b :: w :: rest') - N + 1)
    with (len (b :: w :: rest') - N + 1 + 1) by (rewrite !len_cons; lia).
  assert (Hn : 0 ≤ len (b :: w :: rest') - N + 1).
  { rewrite !len_cons. pose proof (len_nonneg rest'). unfold N. lia. }
  rewrite (range_succ _ Hn). simpl flat_map.
  change (0 + N - 1) with (0 + 1 + 1).
  rewrite !getitem_cons, getitem_head by lia.
  change (0 + 1 + 1) with 2. rewrite slice_head. simpl. f_equal.
  rewrite flat_map_map_compose. apply flat_map_ext_elem.
  intros i [Hi _]%elem_of_range.
  replace (Z.succ i + N - 1) with (i + N - 1 + 1) by lia.
  rewrite getitem_cons by (unfold N; lia).
  replace (Z.succ i) with (i + 1) by lia.
  rewrite slice_cons by (unfold N; lia). done.
Qed.

Lemma trigrams_elem (tokens : list str) (ctx : list str) (w : str) :
  (ctx, w) ∈ trigrams tokens
  ↔ ∃ pre a b post, tokens = pre ++ a :: b :: w :: post ∧ ctx = [a; b].
Proof.
  split.
  - induction tokens as [|a rest IH]; [by intros ?%elem_of_nil|].
    destruct rest as [|b [|w' rest']];
      [by intros ?%elem_of_nil | by intros ?%elem_of_nil |].
    change (trigrams (a :: b :: w' :: rest'))
      with (([a; b], w') :: trigrams (b :: w' :: rest')).
    intros [[= -> ->]|Hin]%elem_of_cons.
    + by exists [], a, b, rest'.
    + destruct (IH Hin) as (pre & a' & b' & post & E & ->).
      exists (a :: pre), a', b', post. by rewrite E.
  - intros (pre & a & b & post & -> & ->).
    induction pre as [|x pre IH].
    + apply elem_of_cons. by left.
    + assert (Hrest : ∃ y z r, pre ++ a :: b :: w :: post = y :: z :: r).
      { destruct pre as [|y [|z pre]]; simpl; eauto. }
      destruct Hrest as (y & z & r & E).
      change ((x :: pre) ++ a :: b :: w :: post)
        with (x :: (pre ++ a :: b :: w :: post)).
      rewrite E in *.
      change (trigrams (x :: y :: z :: r))
        with (([x; y], z) :: trigrams (y :: z :: r)).
      apply elem_of_cons. by right.
Qed.

Lemma recorded_elem_iff (ctx : list str) (pass : list (list str * str))
    (w : str) :
  w ∈ recorded ctx pass ↔ (ctx, w) ∈ pass.
Proof.
  unfold recorded. rewrite list_elem_of_fmap. split.
  - intros ([k w'] & -> & Hin). simpl.
    apply list_elem_of_In, filter_In in Hin as [Hin Hk].
    apply bool_decide_eq_true in Hk. simpl in Hk. subst k.
    by apply list_elem_of_In.
  - intros Hin. exists (ctx, w). split; [done|].
    apply list_elem_of_In, filter_In. split; [by apply list_elem_of_In|].
    by apply bool_decide_eq_true.
Qed.

Lemma counting_pass_elem_iff (sentences : list (list str)) (ctx : list str)
    (w : str) :
  (ctx, w) ∈ counting_pass sentences
  ↔ ∃ tokens pre a b post,
      tokens ∈ sentences ∧ tokens = pre ++ a :: b :: w :: post ∧ ctx = [a; b].
Proof.
  unfold counting_pass. rewrite list_elem_of_In, in_flat_map. split.
  - intros (tokens & Ht & Hp). rewrite ngrams_trigrams in Hp.
    apply list_elem_of_In, trigrams_elem in Hp as (pre & a & b & post & E & Hc).
    exists tokens, pre, a, b, post. split; [by apply list_elem_of_In | done].
  - intros (tokens & pre & a & b & post & Ht & E & Hc).
    exists tokens. split; [by apply list_elem_of_In|].
    rewrite ngrams_trigrams. apply list_elem_of_In, trigrams_elem.
    by exists pre, a, b, post.
Qed.

Lemma counter_keys_recorded (sentences : list (list str)) (ctx : list str)
    (c : counter) (w : str) :
  foldl record_ngram ∅ (counting_pass sentences) !! ctx = Some c →
  w ∈ c.*1 ↔ (ctx, w) ∈ counting_pass sentences.
Proof.
  intros Hc. destruct (model_lookup_recorded _ _ _ Hc) as [_ ->].
  destruct (counter_keys_first_recorded
              (recorded ctx (counting_pass sentences))) as (_ & Hmem & _).
  rewrite Hmem. apply recorded_elem_iff.
Qed.

(** X1: the pairs the loops of [build_ngram_model] record for a sentence are
    its windows of three consecutive tokens, in order; and the model holds
    a next-Token under a Context exactly when the three tokens stand side
    by side in a sentence of the corpus. *)
Theorem model_holds_corpus_trigrams (sentences : list (list str)) :
  (∀ tokens, ngrams tokens = trigrams tokens)
  ∧ ∃ model : ngram_model,
      build_ngram_model sentences = Return model
      ∧ ∀ (ctx : list str) (w : str),
          (∃ (c : counter) (n : Z), model !! ctx = Some c ∧ (w, n) ∈ c)
          ↔ ∃ tokens pre a b post,
              tokens ∈ sentences ∧ tokens = pre ++ a :: b :: w :: post
              ∧ ctx = [a; b].
Proof.
  split; [apply ngrams_trigrams|].
  exists (foldl record_ngram ∅ (counting_pass sentences)).
  split; [apply build_ngram_model_pass|].
  intros ctx w. rewrite <- counting_pass_elem_iff. split.
  - intros (c & n & Hc & Hin). apply (counter_keys_recorded _ _ _ _ Hc).
    apply list_elem_of_fmap. by exists (w, n).
  - intros Hin.
    assert (Hrec : w ∈ recorded ctx (counting_pass sentences))
      by by apply recorded_elem_iff.
    pose proof (foldl_record_lookup (counting_pass sentences) ∅ ctx) as Hl.
    destruct (recorded ctx (counting_pass sentences)) as [|x ws] eqn:E;
      [by apply elem_of_nil in Hrec|].
    rewrite lookup_empty in Hl. simpl default in Hl.
    eexists. 
    assert (Hk : w ∈ (foldl counter_incr [] (x :: ws)).*1).
    { rewrite <- E. rewrite <- E in Hl.
      apply (counter_keys_recorded sentences ctx _ w Hl). exact Hin. }
    apply list_elem_of_fmap in Hk as ([w' n] & -> & Hk).
    exists n. split; [exact Hl | exact Hk].
Qed.

(** ** The counts *)

Lemma counter_get_cons (k : str) (v : Z) (c : counter) (w : str) :
  counter_get ((k, v) :: c) w
  = if bool_decide (k = w) then v else counter_get c w.
Proof. unfold counter_get. simpl. by destruct (bool_decide (k = w)). Qed.

Lemma counter_total_cons (kv : str * Z) (c : counter) :
  counter_total (kv :: c) = kv.2 + counter_total c.
Proof. reflexivity. Qed.

Lemma counter_total_set (c : counter) (w : str) (n : Z) :
  counter_total (counter_set c w n) = counter_total c - counter_get c w + n.
Proof.
  induction c as [|[k v] c IH];
    [unfold counter_total, counter_get; simpl; lia|].
  rewrite counter_get_cons, counter_total_cons.
  change (counter_set ((k, v) :: c) w n)
    with (if bool_decide (k = w) then (w, n) :: c
          else (k, v) :: counter_set c w n).
  destruct (bool_decide (k = w)); rewrite counter_total_cons; simpl; [lia|].
  rewrite IH. lia.
Qed.

Lemma counter_total_counted (ws : list str) :
  counter_total (foldl counter_incr [] ws) = len ws.
Proof.
  induction ws as [|x ws IH] using rev_ind; [done|].
  rewrite foldl_app. simpl. unfold counter_incr at 1.
  rewrite counter_total_set, IH. unfold len. rewrite length_app. simpl. lia.
Qed.

Lemma occurrences_cons (w x : str) (ws : list str) :
  occurrences w (x :: ws)
  = (if decide (x = w) then 1 else 0) + occurrences w ws.
Proof.
  unfold occurrences, len. simpl. destruct (decide (x = w)) as [->|Hne].
  - rewrite bool_decide_eq_true_2 by done. simpl. lia.
  - rewrite bool_decide_eq_false_2 by done. simpl. lia.
Qed.

Lemma occurrences_nonneg (w : str) (ws : list str) : 0 ≤ occurrences w ws.
Proof. unfold occurrences, len. lia. Qed.

Lemma occurrences_pos (w : str) (ws : list str) :
  w ∈ ws → 1 ≤ occurrences w ws.
Proof.
  induction ws as [|x ws IH]; [by intros ?%elem_of_nil|].
  rewrite occurrences_cons. pose proof (occurrences_nonneg w ws).
  intros [->|Hin]%elem_of_cons.
  - rewrite decide_True by done. lia.
  - specialize (IH Hin). destruct (decide (x = w)); lia.
Qed.

(** X2: in a model built by [build_ngram_model], a Context is a pair of
    tokens, the next-Tokens under it are distinct, each count is at least
    1 and is the number of times the token was recorded for the Context,
    and the counts under a Context add up to the number of windows of the
    corpus that start with it. *)
Theorem model_counts (sentences : list (list str)) :
  ∃ model : ngram_model,
    build_ngram_model sentences = Return model
    ∧ ∀ (ctx : list str) (c : counter), model !! ctx = Some c →
        length ctx = 2%nat
        ∧ NoDup c.*1
        ∧ (∀ w n, (w, n) ∈ c →
             1 ≤ n ∧ n = occurrences w (recorded ctx (counting_pass sentences)))
        ∧ counter_total c = len (recorded ctx (counting_pass sentences)).
Proof.
  exists (foldl record_ngram ∅ (counting_pass sentences)).
  split; [apply build_ngram_model_pass|].
  intros ctx c Hc. destruct (model_lookup_recorded _ _ _ Hc) as [Hne Hcw].
  destruct (counter_keys_first_recorded
              (recorded ctx (counting_pass sentences))) as (Hnd & Hmem & _).
  rewrite <- Hcw in Hnd, Hmem.
  split; [|split; [done|split]].
  - destruct (recorded ctx (counting_pass sentences)) as [|x ws] eqn:E; [done|].
    assert (Hx : (ctx, x) ∈ counting_pass sentences).
    { apply recorded_elem_iff. rewrite E. apply elem_of_cons. by left. }
    apply counting_pass_elem_iff in Hx as (? & ? & a & b & ? & _ & _ & ->).
    done.
  - intros w n Hin.
    assert (Hn : n = occurrences w (recorded ctx (counting_pass sentences))).
    { rewrite <- (counter_get_entry c w n Hnd Hin), Hcw.
      apply counter_get_counted. }
    split; [|done]. rewrite Hn. apply occurrences_pos, Hmem.
    apply list_elem_of_fmap. by exists (w, n).
  - rewrite Hcw. apply counter_total_counted.
Qed.

Lemma trigrams_short (tokens : list str) : len tokens < N → trigrams tokens = [].
Proof.
  destruct tokens as [|a [|b [|w rest]]]; try done.
  rewrite !len_cons. pose proof (len_nonneg rest). unfold N. lia.
Qed.

(** X3: a sentence of fewer than N tokens adds nothing to the model,
    wherever it stands in the corpus. *)
Theorem short_sentence_ignored (before after : list (list str))
    (tokens : list str) :
  len tokens < N →
  build_ngram_model (before ++ tokens :: after)
  = build_ngram_model (before ++ after).
Proof.
  intros Hlen. rewrite !build_ngram_model_pass. unfold counting_pass.
  rewrite !flat_map_app. simpl.
  by rewrite ngrams_trigrams, trigrams_short.
Qed.

Lemma model_count_occurrences (sentences : list (list str)) (ctx : list str)
    (w : str) :
  counter_get
    (default [] (foldl record_ngram ∅ (counting_pass sentences) !! ctx)) w
  = occurrences w (recorded ctx (counting_pass sentences)).
Proof.
  rewrite foldl_record_lookup, lookup_empty.
  destruct (recorded ctx (counting_pass sentences)) as [|x ws] eqn:E; [done|].
  apply (counter_get_counted (x :: ws)).
Qed.

Lemma occurrences_recorded_perm (ctx : list str) (w : str)
    (p1 p2 : list (list str * str)) :
  p1 ≡ₚ p2 →
  occurrences w (recorded ctx p1) = occurrences w (recorded ctx p2).
Proof.
  induction 1 as [|x p1 p2 _ IH|x y p|p1 p2 p3 _ IH1 _ IH2]; [done| | |].
  - rewrite !recorded_cons. destruct (bool_decide (x.1 = ctx)); [|done].
    by rewrite !occurrences_cons, IH.
  - rewrite !recorded_cons.
    destruct (bool_decide (x.1 = ctx)), (bool_decide (y.1 = ctx));
      rewrite ?occurrences_cons; lia.
  - by rewrite IH1.
Qed.

(** X4: the count the model holds for a Context and a next-Token is the
    number of times the three tokens were recorded (0 when the model does
    not hold them), so that it does not depend on the order of the
    sentences in the corpus: the order decides ties only. *)
Theorem counts_order_independent (sentences1 sentences2 : list (list str)) :
  sentences1 ≡ₚ sentences2 →
  ∃ model1 model2 : ngram_model,
    build_ngram_model sentences1 = Return model1
    ∧ build_ngram_model sentences2 = Return model2
    ∧ ∀ (ctx : list str) (w : str),
        counter_get (default [] (model1 !! ctx)) w
        = occurrences w (recorded ctx (counting_pass sentences1))
        ∧ counter_get (default [] (model1 !! ctx)) w
          = counter_get (default [] (model2 !! ctx)) w.
Proof.
  intros Hperm.
  exists (foldl record_ngram ∅ (counting_pass sentences1)),
         (foldl record_ngram ∅ (counting_pass sentences2)).
  split; [apply build_ngram_model_pass|].
  split; [apply build_ngram_model_pass|].
  intros ctx w. rewrite !model_count_occurrences. split; [done|].
  apply occurrences_recorded_perm. unfold counting_pass.
  by apply Permutation_flat_map.
Qed.

(** ** The walk on a model without empty Counters *)

Lemma built_model_no_empty_counter (sentences : list (list str))
    (ctx : list str) :
  foldl record_ngram ∅ (counting_pass sentences) !! ctx ≠ Some [].
Proof.
  intros Hc. destruct (model_lookup_recorded _ _ _ Hc) as [Hne Hcw].
  destruct (counter_keys_first_recorded
              (recorded ctx (counting_pass sentences))) as (_ & Hmem & _).
  rewrite <- Hcw in Hmem.
  destruct (recorded ctx (counting_pass sentences)) as [|x ws]; [done|].
  assert (Hx : x ∈ ([] : counter).*1) by (apply Hmem, elem_of_cons; by left).
  by apply elem_of_nil in Hx.
Qed.

Lemma autocomplete_loop_step (i : Z) (iters : list Z) (m : ngram_model)
    (prefix suggestion : list str) (c : counter) :
  m !! prefix = Some c → c ≠ [] →
  ∃ w n, (w, n) ∈ c
         ∧ autocomplete_loop (i :: iters) m prefix suggestion
           = autocomplete_loop iters m (slice_from prefix 1 ++ [w])
               (suggestion ++ [w]).
Proof.
  intros Hc Hne. destruct (most_common_1_in c Hne) as (w & n & Hm & Hin).
  exists w, n. split; [done|]. simpl. rewrite Hc.
  rewrite (defaultdict_getitem_present _ _ _ Hc). by rewrite Hm.
Qed.

Lemma autocomplete_loop_returns (iters : list Z) :
  ∀ (m : ngram_model) (prefix suggestion : list str),
  (∀ ctx, m !! ctx ≠ Some []) →
  ∃ ws, autocomplete_loop iters m prefix suggestion
        = (Return (suggestion ++ ws), m)
        ∧ (length ws ≤ length iters)%nat
        ∧ ((length ws < length iters)%nat → m !! walk_context prefix ws = None).
Proof.
  induction iters as [|i iters IH]; intros m prefix suggestion Hm.
  - exists []. rewrite app_nil_r. split; [done|]. split; [done|].
    simpl. lia.
  - destruct (m !! prefix) as [c|] eqn:Hc.
    + assert (Hne : c ≠ []) by (intros ->; by apply (Hm prefix)).
      destruct (autocomplete_loop_step i iters m prefix suggestion c Hc Hne)
        as (w & n & _ & ->).
      destruct (IH m (slice_from prefix 1 ++ [w]) (suggestion ++ [w]) Hm)
        as (ws & -> & Hlen & Hstop).
      exists (w :: ws). rewrite <- app_assoc. split; [done|].
      split; [simpl; lia|]. simpl. intros H. apply Hstop. lia.
    + exists []. rewrite app_nil_r. simpl. rewrite Hc.
      split; [done|]. split; [lia|]. done.
Qed.

Lemma autocomplete_loop_extend (iters1 : list Z) :
  ∀ (iters2 : list Z) (m : ngram_model) (prefix suggestion : list str),
  (∀ ctx, m !! ctx ≠ Some []) →
  (length iters1 ≤ length iters2)%nat →
  ∃ ws1 ws2,
    autocomplete_loop iters1 m prefix suggestion
    = (Return (suggestion ++ ws1), m)
    ∧ autocomplete_loop iters2 m prefix suggestion
      = (Return (suggestion ++ ws1 ++ ws2), m).
Proof.
  induction iters1 as [|i iters1 IH];
    intros iters2 m prefix suggestion Hm Hlen.
  - destruct (autocomplete_loop_returns iters2 m prefix suggestion Hm)
      as (ws & -> & _).
    exists [], ws. by rewrite app_nil_r.
  - destruct iters2 as [|j iters2]; [simpl in Hlen; lia|].
    destruct (m !! prefix) as [c|] eqn:Hc.
    + assert (Hne : c ≠ []) by (intros ->; by apply (Hm prefix)).
      destruct (most_common_1_in c Hne) as (w & n & Hmc & Hin).
      destruct (IH iters2 m (slice_from prefix 1 ++ [w]) (suggestion ++ [w]) Hm)
        as (ws1 & ws2 & H1 & H2); [simpl in Hlen; lia|].
      exists (w :: ws1), ws2. simpl. rewrite Hc.
      rewrite (defaultdict_getitem_present _ _ _ Hc), Hmc.
      rewrite H1, H2. by rewrite <- !app_assoc.
    + exists [], []. simpl. rewrite Hc. by rewrite app_nil_r.
Qed.

Lemma autocomplete_loop_follows (sentences : list (list str))
    (iters : list Z) :
  ∀ (prefix suggestion : list str),
  ∃ ws, autocomplete_loop iters
          (foldl record_ngram ∅ (counting_pass sentences)) prefix suggestion
        = (Return (suggestion ++ ws),
           foldl record_ngram ∅ (counting_pass sentences))
        ∧ follows (counting_pass sentences) prefix ws.
Proof.
  induction iters as [|i iters IH]; intros prefix suggestion.
  - exists []. by rewrite app_nil_r.
  - destruct (foldl record_ngram ∅ (counting_pass sentences) !! prefix)
      as [c|] eqn:Hc.
    + assert (Hne : c ≠ [])
        by (intros ->; by apply (built_model_no_empty_counter sentences prefix)).
      destruct (autocomplete_loop_step i iters _ prefix suggestion c Hc Hne)
        as (w & n & Hin & ->).
      destruct (IH (slice_from prefix 1 ++ [w]) (suggestion ++ [w]))
        as (ws & -> & Hf).
      exists (w :: ws). rewrite <- app_assoc. split; [done|].
      split; [|done]. apply (counter_keys_recorded _ _ _ _ Hc).
      apply list_elem_of_fmap. by exists (w, n).
    + exists []. rewrite app_nil_r. simpl. by rewrite Hc.
Qed.

(** X5: on the model built from a corpus [autocomplete] never raises, and
    every token it suggests was recorded in the counting pass after the
    Context the walk was at: the Suggestion chains windows of three tokens
    that occur in the corpus. *)
Theorem suggestion_follows_corpus (sentences : list (list str))
    (user_input : str) (max_words : Z) :
  ∃ (model : ngram_model) (ws : list str),
    build_ngram_model sentences = Return model
    ∧ autocomplete model user_input max_words = Return (join (py " ") ws)
    ∧ follows (counting_pass sentences)
        (slice_from (normalize user_input) (- (N - 1))) ws
    ∧ ∀ w ws', ws = w :: ws' →
        ∃ tokens pre a b post,
          tokens ∈ sentences ∧ tokens = pre ++ a :: b :: w :: post
          ∧ slice_from (normalize user_input) (- (N - 1)) = [a; b].
Proof.
  exists (foldl record_ngram ∅ (counting_pass sentences)).
  destruct (autocomplete_loop_follows sentences (range max_words)
    (slice_from (normalize user_input) (- (N - 1))) []) as (ws & Hloop & Hf).
  unfold autocomplete, autocomplete_run.
  destruct (len (normalize user_input) <? N - 1).
  - exists []. split; [apply build_ngram_model_pass|]. by repeat split.
  - exists ws. split; [apply build_ngram_model_pass|]. rewrite Hloop.
    split; [done|]. split; [done|]. intros w ws' ->. destruct Hf as [Hin _].
    by apply counting_pass_elem_iff in Hin.
Qed.

(** X6: on a model without empty Counters, the Suggestion for a larger
    max_words extends the Suggestion for a smaller one. *)
Theorem suggestion_extends (model : ngram_model) (user_input : str)
    (max_words1 max_words2 : Z) :
  (∀ ctx, model !! ctx ≠ Some []) →
  max_words1 ≤ max_words2 →
  ∃ ws1 ws2,
    autocomplete model user_input max_words1 = Return (join (py " ") ws1)
    ∧ autocomplete model user_input max_words2
      = Return (join (py " ") (ws1 ++ ws2)).
Proof.
  intros Hm Hk. unfold autocomplete, autocomplete_run.
  destruct (len (normalize user_input) <? N - 1); [by exists [], []|].
  destruct (autocomplete_loop_extend (range max_words1) (range max_words2)
    model (slice_from (normalize user_input) (- (N - 1))) [] Hm)
    as (ws1 & ws2 & -> & ->); [rewrite !length_range; lia|].
  by exists ws1, ws2.
Qed.

(** X7: on a model without empty Counters and for an input of at least
    N - 1 tokens, the walk of [autocomplete] returns a list of at most
    max(0, max_words) tokens, which [autocomplete] joins with single
    spaces; the list has fewer than max_words tokens only when the walk
    has reached a Context the model does not hold. *)
Theorem early_stop_is_miss (model : ngram_model) (user_input : str)
    (max_words : Z) :
  (∀ ctx, model !! ctx ≠ Some []) →
  N - 1 ≤ len (normalize user_input) →
  ∃ ws,
    autocomplete_loop (range max_words) model
      (slice_from (normalize user_input) (- (N - 1))) []
    = (Return ws, model)
    ∧ autocomplete model user_input max_words = Return (join (py " ") ws)
    ∧ len ws ≤ Z.max 0 max_words
    ∧ (len ws < max_words →
       model !! walk_context (slice_from (normalize user_input) (- (N - 1))) ws
       = None).
Proof.
  intros Hm Hlen. unfold autocomplete, autocomplete_run.
  destruct (Z.ltb_spec (len (normalize user_input)) (N - 1)); [lia|].
  destruct (autocomplete_loop_returns (range max_words) model
    (slice_from (normalize user_input) (- (N - 1))) [] Hm)
    as (ws & -> & Hle & Hstop).
  rewrite length_range in Hle, Hstop.
  exists ws. split; [done|]. split; [done|]. unfold len. split; [lia|].
  intros Hshort. apply Hstop. lia.
Qed.

(** ** Loading a list of records *)

Lemma load_loop_records (l : list json) : ∀ acc,
  Forall is_record l →
  load_loop l acc
  = Return (acc ++ List.filter (λ s, N <=? len s)
                     (List.map (λ r, normalize (record_text r)) l)).
Proof.
  induction l as [|item l IH]; intros acc Hl.
  - simpl. by rewrite app_nil_r.
  - apply Forall_cons in Hl as [(d & s & -> & Hs) Hl]. simpl.
    rewrite Hs. simpl. destruct (N <=? len (normalize s)).
    + rewrite (IH _ Hl). by rewrite <- app_assoc.
    + by apply IH.
Qed.

(** X8: for a JSON list of records, [load_sentences] returns the
    normalized texts of the records that have at least N tokens, in the
    order of the records; every sentence it returns has at least N tokens,
    all of them Tokens. *)
Theorem load_sentences_records (records : list json) :
  Forall is_record records →
  ∃ sentences,
    load_sentences (Loaded (JList records)) = Return sentences
    ∧ sentences
      = List.filter (λ s, N <=? len s)
          (List.map (λ r, normalize (record_text r)) records)
    ∧ ∀ tokens, tokens ∈ sentences →
        N ≤ len tokens ∧ ∀ t, t ∈ tokens → is_token t.
Proof.
  intros Hrec. eexists. split; [|split; [reflexivity|]].
  - simpl. by rewrite load_loop_records.
  - intros tokens Hin%list_elem_of_In. apply filter_In in Hin as [Hin Hlen].
    apply Z.leb_le in Hlen. split; [done|].
    apply in_map_iff in Hin as (r & <- & _). intros t. apply normalize_tokens.
Qed.

Lemma autocomplete_total (m : ngram_model) (user_input : str) (max_words : Z) :
  wf_model m →
  ∃ ws, autocomplete m user_input max_words = Return (join (py " ") ws)
        ∧ split (join (py " ") ws) = ws
        ∧ len ws ≤ Z.max 0 max_words.
Proof.
  intros Hwf. unfold autocomplete, autocomplete_run.
  destruct (len (normalize user_input) <? N - 1).
  - exists []. split; [done|]. split; [done|]. unfold len. simpl. lia.
  - destruct (autocomplete_loop_total (range max_words) m
      (slice_from (normalize user_input) (- (N - 1))) [] Hwf)
      as (ws & -> & Hlen & Hws).
    exists ws. split; [done|]. split.
    + apply split_join. intros t Ht. destruct (Hws t Ht) as [Hne Hal].
      split; [done|]. intros c Hc. by apply alnum_not_space, Hal.
    + rewrite length_range in Hlen. unfold len. lia.
Qed.

Lemma get_contextual_suggestion_records (records : list json)
    (user_input : str) (max_words : Z) :
  Forall is_record records →
  ∃ ws,
    get_contextual_suggestion (Loaded (JList records)) user_input max_words
    = Return (join (py " ") ws)
    ∧ split (join (py " ") ws) = ws
    ∧ len ws ≤ Z.max 0 max_words.
Proof.
  intros Hrec. unfold get_contextual_suggestion, load_sentences. simpl iterate.
  cbv beta iota. simpl mbind at 1. rewrite (load_loop_records _ _ Hrec).
  simpl.
  destruct (List.filter (λ s, N <=? len s)
              (List.map (λ r, normalize (record_text r)) records))
    as [|s0 sentences] eqn:Hs.
  { exists []. split; [done|]. split; [done|]. unfold len. simpl. lia. }
  rewrite build_ngram_model_pass. simpl.
  apply autocomplete_total.
  apply (build_ngram_model_wf (s0 :: sentences));
    [|apply build_ngram_model_pass].
  intros tokens t Htok. rewrite <- Hs in Htok.
  apply list_elem_of_In, filter_In in Htok as [Htok _].
  apply in_map_iff in Htok as (r & <- & _). apply normalize_tokens.
Qed.

(** X9: for a JSON list of records [get_contextual_suggestion] does not
    raise, whatever the user input and max_words; it returns at most
    max_words tokens (none when max_words is negative) joined by single
    spaces. *)
Theorem record_list_never_raises (records : list json) (user_input : str)
    (max_words : Z) :
  Forall is_record records →
  ∃ ws,
    get_contextual_suggestion (Loaded (JList records)) user_input max_words
    = Return (join (py " ") ws)
    ∧ split (join (py " ") ws) = ws
    ∧ len ws ≤ Z.max 0 max_words.
Proof. apply get_contextual_suggestion_records. Qed.

(** X20: for a chat-history file that holds a JSON list of records,
    [load_contextual_suggestions] returns the Suggestion itself, of at most
    10 tokens, and neither of its two messages. *)
Theorem load_contextual_suggestions_records (records : list json)
    (user_input : str) :
  Forall is_record records →
  ∃ ws,
    load_contextual_suggestions (Loaded (JList records)) user_input
    = join (py " ") ws
    ∧ get_contextual_suggestion (Loaded (JList records)) user_input 10
      = Return (join (py " ") ws)
    ∧ split (join (py " ") ws) = ws
    ∧ len ws ≤ 10.
Proof.
  intros Hrec.
  destruct (get_contextual_suggestion_records records user_input 10 Hrec)
    as (ws & Hg & Hsplit & Hlen).
  exists ws. unfold load_contextual_suggestions. rewrite Hg.
  split; [done|]. split; [done|]. split; [done|lia].
Qed.

(** ** [normalize] and concatenation *)

Lemma split_from_sep (a : str) : ∀ (cur : str) (sp : char) (b : str),
  isspace sp = true →
  split_from cur (a ++ sp :: b) = split_from cur a ++ split b.
Proof.
  unfold split. induction a as [|c a IH]; intros cur sp b Hsp; simpl.
  - rewrite Hsp. by destruct cur.
  - destruct (isspace c).
    + destruct cur; rewrite IH by done; done.
    + by apply IH.
Qed.

Lemma is_ascii_app (a b : str) : is_ascii (a ++ b) = is_ascii a && is_ascii b.
Proof. apply forallb_app. Qed.

Lemma clean_app (a b : str) :
  is_ascii a = true → is_ascii b = true →
  re_sub_strip (lower (a ++ b))
  = re_sub_strip (lower a) ++ re_sub_strip (lower b).
Proof.
  intros Ha Hb. unfold lower, re_sub_strip.
  rewrite is_ascii_app, Ha, Hb. simpl.
  by rewrite List.map_app, List.filter_app.
Qed.

Lemma normalize_app_space_aux (a b : str) :
  is_ascii a = true → is_ascii b = true →
  normalize (a ++ py " " ++ b) = normalize a ++ normalize b.
Proof.
  intros Ha Hb. unfold normalize.
  rewrite !clean_app by (done || by rewrite is_ascii_app, Hb).
  change (re_sub_strip (lower (py " "))) with [32%N].
  by apply split_from_sep.
Qed.

(** X10: for ASCII texts, the tokens of two texts joined by whitespace
    are the tokens of the first followed by the tokens of the second. *)
Theorem normalize_app_space (a b : str) (sp : char) :
  is_ascii a = true → is_ascii b = true →
  (sp <? 128)%N = true → isspace sp = true →
  normalize (a ++ sp :: b) = normalize a ++ normalize b.
Proof.
  intros Ha Hb Hlt Hsp. unfold normalize.
  assert (Hsb : is_ascii (sp :: b) = true) by (simpl; by rewrite Hlt, Hb).
  rewrite clean_app by done.
  assert (Hlow : ascii_lower sp = sp).
  { unfold ascii_lower, isspace in *.
    destruct (N.leb_spec 65 sp), (N.leb_spec sp 90); simpl; try done.
    exfalso. revert Hsp. apply not_true_iff_false.
    apply not_true_iff_false.
    repeat match goal with
           | |- context [(?x <=? ?y)%N] => destruct (N.leb_spec x y); try lia
           | |- context [(?x =? ?y)%N] => destruct (N.eqb_spec x y); try lia
           end; done. }
  unfold lower at 2. rewrite Hsb. simpl List.map. rewrite Hlow.
  unfold re_sub_strip at 2. simpl List.filter.
  replace (kept sp) with true
    by (unfold kept; rewrite Hsp; by rewrite orb_true_r).
  replace (List.filter kept (List.map ascii_lower b))
    with (re_sub_strip (lower b))
    by (unfold lower, re_sub_strip; by rewrite Hb).
  by apply split_from_sep.
Qed.

Lemma slice_from_app_tail {A : Type} (x y : list A) :
  N - 1 ≤ len y → slice_from (x ++ y) (- (N - 1)) = slice_from y (- (N - 1)).
Proof.
  intros Hy. unfold slice_from, slice_bound, N, len in *.
  change (- (3 - 1) <? 0) with true. cbv iota. rewrite length_app.
  replace (Z.to_nat (Z.max 0 (- (3 - 1) + Z.of_nat (length x + length y))))
    with (length x + Z.to_nat (Z.max 0 (- (3 - 1) + Z.of_nat (length y))))%nat
    by lia.
  apply drop_app_add.
Qed.

(** X11: only the end of the input counts: for ASCII texts, text put
    before an input that has at least N - 1 tokens of its own, and
    separated from it by a space, does not change what [autocomplete]
    does. *)
Theorem autocomplete_last_words (model : ngram_model) (before input : str)
    (max_words : Z) :
  is_ascii before = true → is_ascii input = true →
  N - 1 ≤ len (normalize input) →
  autocomplete_run model (before ++ py " " ++ input) max_words
  = autocomplete_run model input max_words.
Proof.
  intros Ha Hb Hlen. unfold autocomplete_run.
  rewrite normalize_app_space_aux by done.
  destruct (Z.ltb_spec (len (normalize input)) (N - 1)); [lia|].
  destruct (Z.ltb_spec (len (normalize before ++ normalize input)) (N - 1)).
  - unfold len in *. rewrite length_app in *. lia.
  - by rewrite slice_from_app_tail.
Qed.

(** X12: for ASCII texts, a character that is neither a letter, a digit
    nor whitespace is dropped without separating what stands around it. *)
Theorem punctuation_ignored (a b : str) (c : char) :
  is_ascii a = true → is_ascii b = true → (c <? 128)%N = true →
  kept (ascii_lower c) = false →
  normalize (a ++ c :: b) = normalize (a ++ b).
Proof.
  intros Ha Hb Hc Hk. unfold normalize.
  assert (Hcb : is_ascii (c :: b) = true) by (simpl; by rewrite Hc, Hb).
  rewrite !clean_app by done. f_equal. f_equal.
  unfold lower, re_sub_strip. rewrite Hcb, Hb. simpl. by rewrite Hk.
Qed.

(** * The context loader *)

(** ** [load_chat_history] *)

Lemma slice_from_last {A : Type} (l : list A) (limit : Z) :
  slice_from l (- limit)
  = if 0 <? limit then drop (Z.to_nat (len l - limit)) l
    else drop (Z.to_nat (- limit)) l.
Proof.
  unfold slice_from, slice_bound.
  destruct (Z.ltb_spec 0 limit), (Z.ltb_spec (- limit) 0); try lia.
  - f_equal. lia.
  - destruct (Z.le_gt_cases (- limit) (len l)).
    + f_equal. lia.
    + rewrite !drop_ge; [done| |]; unfold len in *; lia.
Qed.

(** X13: [load_chat_history] reads the messages [history[-limit:]]: for
    limit >= 1 the last [limit] messages (all of them when there are
    fewer), in order, each with its content and the role "user" when its
    sender is [user_id], "assistant" otherwise; but for limit = 0 it
    returns all the messages of the history. *)
Theorem load_chat_history_recent (msgs : list json) (user_id : option str)
    (limit : Z) :
  Forall (λ msg, is_Some (chat_entry_of user_id msg))
    (slice_from msgs (- limit)) →
  Forall2 (λ msg e,
             ∃ sender, subscript msg (py "sender") = Some sender
               ∧ subscript msg (py "message") = Some (content e)
               ∧ role e = if sender_is sender user_id then py "user"
                          else py "assistant")
    (if 0 <? limit then drop (Z.to_nat (len msgs - limit)) msgs
     else drop (Z.to_nat (- limit)) msgs)
    (load_chat_history (Loaded (JList msgs)) user_id limit)
  ∧ (0 < limit →
     len (load_chat_history (Loaded (JList msgs)) user_id limit)
     = Z.min limit (len msgs))
  ∧ (limit = 0 →
     len (load_chat_history (Loaded (JList msgs)) user_id limit) = len msgs).
Proof.
  intros Hwf. unfold load_chat_history. simpl slice_items. cbv iota beta.
  apply mapM_is_Some in Hwf as [entries Hentries].
  rewrite Hentries. simpl default.
  apply mapM_Some in Hentries. rewrite slice_from_last in Hentries.
  assert (Hlen := Forall2_length _ _ _ Hentries).
  split; [|split].
  - eapply Forall2_impl; [exact Hentries|]. intros msg e He.
    unfold chat_entry_of in He.
    destruct (subscript msg (py "sender")) as [sender|]; [|done].
    destruct (subscript msg (py "message")) as [message|]; [|done].
    simpl in He. injection He as <-. by exists sender.
  - intros Hpos. destruct (Z.ltb_spec 0 limit); [|lia].
    rewrite length_drop in Hlen. unfold len in *. clear Hentries.
    destruct (Z.le_gt_cases limit (Z.of_nat (length msgs))); lia.
  - intros ->. change (0 <? 0) with false in Hlen. cbv iota in Hlen.
    rewrite length_drop in Hlen. change (Z.to_nat (- 0)) with 0%nat in Hlen.
    unfold len. lia.
Qed.

(** X14: [load_chat_history] gives all or nothing: one message among those
    it reads that is not an object with both a "sender" and a "message"
    makes it return the empty list, as does a file that is missing,
    unreadable, not JSON, or JSON that is not a list. *)
Theorem load_chat_history_all_or_nothing (file : source)
    (user_id : option str) (limit : Z) :
  (∀ msgs, file = Loaded (JList msgs) →
     ∃ msg, msg ∈ slice_from msgs (- limit)
            ∧ (subscript msg (py "sender") = None
               ∨ subscript msg (py "message") = None)) →
  load_chat_history file user_id limit = [].
Proof.
  intros Hbad. destruct file as [ | | | |data]; try done.
  unfold load_chat_history.
  destruct data as [ | | | |s|msgs|d]; try done.
  - simpl. destruct (slice_from s (- limit)) as [|c cs]; done.
  - destruct (Hbad msgs eq_refl) as (msg & Hin & Hmsg). simpl slice_items.
    cbv iota beta.
    replace (mapM (chat_entry_of user_id) (slice_from msgs (- limit)))
      with (@None (list chat_entry)); [done|].
    symmetry. apply mapM_None, Exists_exists. exists msg. split; [done|].
    unfold chat_entry_of. destruct Hmsg as [-> | Hm]; [done|].
    destruct (subscript msg (py "sender")); [|done]. simpl. by rewrite Hm.
Qed.

(** ** [save_message] *)

(** X15: [save_message] succeeds exactly when the history file is missing
    or holds a JSON list and the file can be opened for writing; it then
    holds the old messages followed by the new one (sender, message,
    timestamp, the clock filling in for an absent or empty timestamp), and
    a failed call leaves the file as it was. *)
Theorem save_message_appends (file : source) (writable : bool)
    (sender message : json) (timestamp : option str) (now : str) :
  let r := save_message file writable sender message timestamp now in
  (r.1 = true
   ↔ writable = true ∧ (file = Missing ∨ ∃ history, file = Loaded (JList history)))
  ∧ (r.1 = false → r.2 = file)
  ∧ (r.1 = true →
     ∃ history ts,
       (file = Missing ∧ history = [] ∨ file = Loaded (JList history))
       ∧ (ts = now ∧ (timestamp = None ∨ timestamp = Some [])
          ∨ timestamp = Some ts ∧ ts ≠ [])
       ∧ r.2 = Loaded (JList (history ++
                 [JDict [(py "sender", sender); (py "message", message);
                         (py "timestamp", JStr ts)]]))).
Proof.
  assert (Hts : ∃ ts, timestamp_or timestamp now = ts
            ∧ (ts = now ∧ (timestamp = None ∨ timestamp = Some [])
               ∨ timestamp = Some ts ∧ ts ≠ [])).
  { destruct timestamp as [[|c t]|]; simpl; eauto 10. }
  destruct Hts as (ts & Hts & Hcases).
  unfold save_message. rewrite Hts.
  destruct file as [ | | | |data]; simpl.
  - destruct writable; simpl.
    + split; [split; [intros _; split; [done|by left] | done]|].
      split; [done|]. intros _. exists [], ts.
      split; [by left|]. by split.
    + split; [split; [done|by intros [? _]]|]. by split.
  - split; [split; [done|]|by split].
    intros [_ [?|[? ?]]]; done.
  - split; [split; [done|]|by split].
    intros [_ [?|[? ?]]]; done.
  - split; [split; [done|]|by split].
    intros [_ [?|[? ?]]]; done.
  - destruct data as [ | | | |s|history|d]; simpl;
      try (split; [split; [done|intros [_ [?|[? ?]]]; done]|by split]).
    destruct writable; simpl.
    + split; [split; [intros _; split; [done|right; by exists history] | done]|].
      split; [done|]. intros _. exists history, ts.
      split; [by right|]. by split.
    + split; [split; [done|by intros [? _]]|]. by split.
Qed.

(** X16: after [save_message] has saved a message that is a string,
    [load_sentences] returns what it returned before, with the tokens of
    the new message added at the end when there are at least N of them;
    if it raised before, it raises the same exception after. *)
Theorem save_message_then_load_sentences (file : source) (history : list json)
    (sender : json) (message : str) (timestamp : option str) (now : str) :
  file = Missing ∧ history = [] ∨ file = Loaded (JList history) →
  ∃ file',
    save_message file true sender (JStr message) timestamp now = (true, file')
    ∧ load_sentences file'
      = sentences ← load_sentences file;
        Return (if N <=? len (normalize message)
                then sentences ++ [normalize message] else sentences).
Proof.
  intros Hfile. eexists. split.
  - destruct Hfile as [[-> ->]| ->]; reflexivity.
  - assert (Hload : load_sentences file = load_loop history []).
    { destruct Hfile as [[-> ->]| ->]; reflexivity. }
    rewrite Hload.
    destruct Hfile as [[-> ->]| ->]; simpl iterate; cbv beta iota.
    + simpl. by destruct (N <=? len (normalize message)).
    + simpl load_sentences. rewrite load_loop_app.
      destruct (load_loop history []) as [sentences|e]; [|done]. simpl.
      by destruct (N <=? len (normalize message)).
Qed.

(** X17: after [save_message] has saved a message into a history whose
    messages all have a sender and a message, the last entry that
    [load_chat_history] returns, for any limit >= 1, is the new message,
    with the role "user" when its sender is [user_id]. *)
Theorem save_message_then_load_chat_history (file : source)
    (history : list json) (sender message : json) (timestamp : option str)
    (now : str) (user_id : option str) (limit : Z) :
  file = Missing ∧ history = [] ∨ file = Loaded (JList history) →
  Forall (λ msg, is_Some (chat_entry_of user_id msg)) history →
  0 < limit →
  last (load_chat_history
          (save_message file true sender message timestamp now).2
          user_id limit)
  = Some {| role := if sender_is sender user_id then py "user"
                    else py "assistant";
            content := message |}.
Proof.
  intros Hfile Hwf Hlimit.
  set (new := JDict [(py "sender", sender); (py "message", message);
                     (py "timestamp", JStr (timestamp_or timestamp now))]).
  assert (Hsave : (save_message file true sender message timestamp now).2
                  = Loaded (JList (history ++ [new]))).
  { destruct Hfile as [[-> ->]| ->]; reflexivity. }
  rewrite Hsave. unfold load_chat_history. simpl slice_items. cbv iota beta.
  rewrite slice_from_last. destruct (Z.ltb_spec 0 limit); [|lia].
  rewrite drop_app_le
    by (unfold len; rewrite length_app; simpl; lia).
  assert (Hnew : chat_entry_of user_id new
                 = Some {| role := if sender_is sender user_id then py "user"
                                   else py "assistant";
                           content := message |}) by reflexivity.
  assert (Hold : is_Some (mapM (chat_entry_of user_id)
       (drop (Z.to_nat (len (history ++ [new]) - limit)) history)))
    by (apply mapM_is_Some; by apply Forall_drop).
  destruct Hold as [entries Hentries].
  replace (mapM (chat_entry_of user_id)
             (drop (Z.to_nat (len (history ++ [new]) - limit)) history ++ [new]))
    with (Some (entries ++ [{| role := if sender_is sender user_id
                                       then py "user" else py "assistant";
                               content := message |}])).
  - simpl. apply last_snoc.
  - symmetry. apply mapM_Some. apply Forall2_app.
    + by apply mapM_Some.
    + by constructor.
Qed.

(** ** [load_jira_context] *)

Lemma select_active_spec (tasks : list json) : ∀ active,
  select_active tasks = Some active →
  active `sublist_of` tasks
  ∧ (∀ task, task ∈ active → is_active task = Some true)
  ∧ (∀ task, task ∈ tasks → is_Some (is_active task))
  ∧ (∀ task, task ∈ tasks → is_active task = Some true → task ∈ active).
Proof.
  induction tasks as [|task tasks IH]; intros active.
  - intros [= <-]. split; [constructor|].
    split; [by intros ? ?%elem_of_nil|].
    split; by intros ? ?%elem_of_nil.
  - simpl. destruct (is_active task) as [b|] eqn:Hb; [|done]. simpl.
    destruct (select_active tasks) as [rest|]; [|done]. simpl.
    intros [= <-]. destruct (IH rest eq_refl) as (Hsub & Hact & Hall & Hin).
    split; [|split; [|split]].
    + destruct b; by constructor.
    + intros t Ht. destruct b; [|by apply Hact].
      apply elem_of_cons in Ht as [->|Ht]; [done|by apply Hact].
    + intros t [->|Ht]%elem_of_cons; [by rewrite Hb | by apply Hall].
    + intros t [->|Ht]%elem_of_cons Ht'.
      * rewrite Hb in Ht'. injection Ht' as ->. apply elem_of_cons. by left.
      * destruct b; [apply elem_of_cons; right|]; by apply Hin.
Qed.

Lemma select_active_filter (tasks : list json) : ∀ active,
  select_active tasks = Some active →
  active
  = List.filter
      (λ task, match is_active task with Some true => true | _ => false end)
      tasks.
Proof.
  induction tasks as [|task tasks IH]; intros active; [by intros [= <-]|].
  simpl. destruct (is_active task) as [b|]; [|done]. simpl.
  destruct (select_active tasks) as [rest|]; [|done]. simpl.
  intros [= <-]. rewrite <- (IH rest eq_refl). by destruct b.
Qed.

(** X18: whatever the Jira file holds, [load_jira_context] reports no more
    active tasks than tasks; each active task has a status among
    "In Progress" and "In Review" or else a priority among "High" and
    "Critical"; and for a JSON list of tasks that all carry the fields the
    filter reads, the active tasks are the list filtered by that test
    (the same tasks, as often, in the same order), and total_tasks is the
    length of the list. *)
Theorem load_jira_context_active (file : source) :
  len (active_tasks (load_jira_context file))
    ≤ total_tasks (load_jira_context file)
  ∧ (∀ task, task ∈ active_tasks (load_jira_context file) →
       is_active task = Some true)
  ∧ ∀ tasks, file = Loaded (JList tasks) →
      (∀ task, task ∈ tasks → is_Some (is_active task)) →
      total_tasks (load_jira_context file) = len tasks
      ∧ active_tasks (load_jira_context file) `sublist_of` tasks
      ∧ (∀ task, task ∈ tasks → is_active task = Some true →
           task ∈ active_tasks (load_jira_context file))
      ∧ active_tasks (load_jira_context file)
        = List.filter
            (λ task,
               match is_active task with Some true => true | _ => false end)
            tasks.
Proof.
  split; [|split].
  - unfold load_jira_context. destruct file as [ | | | |data]; try done.
    destruct (iterate data) as [tasks|e]; [|done].
    destruct (select_active tasks) as [active|] eqn:Hsel; [|done]. simpl.
    apply select_active_spec in Hsel as (Hsub%sublist_length & _).
    unfold len. lia.
  - intros task. unfold load_jira_context.
    destruct file as [ | | | |data]; try by intros ?%elem_of_nil.
    destruct (iterate data) as [tasks|e]; [|by intros ?%elem_of_nil].
    destruct (select_active tasks) as [active|] eqn:Hsel;
      [|by intros ?%elem_of_nil].
    simpl. apply select_active_spec in Hsel as (_ & Hact & _). apply Hact.
  - intros tasks -> Hall. unfold load_jira_context. simpl iterate. cbv iota beta.
    destruct (select_active tasks) as [active|] eqn:Hsel.
    + simpl. pose proof (select_active_filter _ _ Hsel) as Hfilter.
      apply select_active_spec in Hsel as (Hsub & _ & _ & Hin).
      by repeat split.
    + exfalso. clear -Hsel Hall. induction tasks as [|task tasks IH]; [done|].
      simpl in Hsel.
      destruct (Hall task) as [b Hb]; [apply elem_of_cons; by left|].
      rewrite Hb in Hsel. simpl in Hsel.
      destruct (select_active tasks) as [rest|]; [done|].
      apply IH; [|done]. intros t Ht. apply Hall, elem_of_cons. by right.
Qed.

(** X19: [load_jira_context] gives all or nothing: one task that is not an
    object, or lacks a "status", or has a status outside "In Progress" and
    "In Review" and lacks a "priority", makes it report no tasks at all,
    total_tasks 0 included. *)
Theorem load_jira_context_all_or_nothing (tasks : list json) (task : json) :
  task ∈ tasks → is_active task = None →
  load_jira_context (Loaded (JList tasks))
  = {| active_tasks := []; total_tasks := 0 |}.
Proof.
  intros Hin Hbad. unfold load_jira_context. simpl iterate. cbv iota beta.
  destruct (select_active tasks) as [active|] eqn:Hsel; [|done].
  apply select_active_spec in Hsel as (_ & _ & Hall & _).
  destruct (Hall task Hin) as [b Hb]. congruence.
Qed.

End Engine.

(** * The engine on concrete inputs *)

Example normalize_latin1 :
  normalize latin1_lower (py "Let's talk, OK?") = [py "lets"; py "talk"; py "ok"].
Proof. by vm_compute. Qed.

Example ngrams_of_sentence :
  ngrams [py "i"; py "will"; py "review"; py "the"]
  = [([py "i"; py "will"], py "review"); ([py "will"; py "review"], py "the")].
Proof. by vm_compute. Qed.

Example ngrams_short_sentence : ngrams [py "ok"] = [].
Proof. by vm_compute. Qed.

Example most_common_1_tie :
  most_common_1 [(py "x", 1); (py "y", 2); (py "z", 2)] = [(py "y", 2)].
Proof. by vm_compute. Qed.

Example build_cyclic_model :
  build_ngram_model [[py "a"; py "a"; py "a"; py "a"]] = Return cyclic_model.
Proof. vm_compute. reflexivity. Qed.

(** The walk comes back to the Context (a, a) at every step and stops at
    max_words. *)
Example cyclic_walk :
  autocomplete latin1_lower cyclic_model (py "a a") 7
  = Return (py "a a a a a a a").
Proof. by vm_compute. Qed.

Example negative_max_words :
  autocomplete latin1_lower cyclic_model (py "a a") (-3) = Return [].
Proof. by vm_compute. Qed.

Example empty_counter_raises :
  autocomplete latin1_lower {[ [py "a"; py "a"] := [] ]} (py "a a") 7
  = Raise IndexError.
Proof. by vm_compute. Qed.

Lemma wf_cyclic_model : wf_model cyclic_model.
Proof.
  unfold cyclic_model. intros ctx c [_ <-]%lookup_singleton_Some.
  split; [done|].
  intros w n [= -> ->]%list_elem_of_singleton. split; [done|].
  by intros ch ->%list_elem_of_singleton.
Defined.

Lemma autocomplete_bounded_counterexample :
  autocomplete latin1_lower {[ [py "a"; py "a"] := [] ]} (py "a a") 7
  = Raise IndexError
  ∧ autocomplete latin1_lower {[ [py "a"; py "a"] := [(py "x y", 1)] ]}
      (py "a a") 1
    = Return (py "x y")
  ∧ len (split (py "x y")) = 2
  ∧ ¬ (∀ (model : ngram_model) (user_input : str) (max_words : Z),
         0 ≤ max_words →
         ∃ s, autocomplete latin1_lower model user_input max_words = Return s
              ∧ len (split s) ≤ max_words).
Proof.
  split; [by vm_compute|]. split; [by vm_compute|]. split; [by vm_compute|].
  intros H.
  destruct (H {[ [py "a"; py "a"] := [] ]} (py "a a") 7) as (s & Hs & _);
    [lia|].
  vm_compute in Hs. discriminate Hs.
Qed.



Lemma most_common_first_recorded_witness :
  ∃ (model : ngram_model) (w : str) (n : Z),
    build_ngram_model
      [[py "i"; py "will"; py "review"]; [py "i"; py "will"; py "send"]]
    = Return model
    ∧ model !! [py "i"; py "will"] = Some [(py "review", 1); (py "send", 1)]
    ∧ most_common_1 [(py "review", 1); (py "send", 1)] = [(w, n)]
    ∧ autocomplete_loop [0] model [py "i"; py "will"] [] = (Return [w], model)
    ∧ autocomplete latin1_lower model (py "I will") 1 = Return w
    ∧ ∀ w' n', (w', n') ∈ [(py "review", 1); (py "send", 1)] → n' ≤ n.
Proof.
  destruct (most_common_first_recorded latin1_lower
    [[py "i"; py "will"; py "review"]; [py "i"; py "will"; py "send"]])
    as (model & Hb & H).
  assert (Hc : model !! [py "i"; py "will"]
               = Some [(py "review", 1); (py "send", 1)]).
  { rewrite build_ngram_model_pass in Hb. injection Hb as <-.
    vm_compute. reflexivity. }
  destruct (H _ _ Hc) as (w & n & Hm & Hone & Hauto & _ & _ & _ & Hmax & _).
  exists model, w, n. split; [exact Hb|]. split; [exact Hc|].
  split; [exact Hm|]. split; [exact (Hone 0 [])|]. split; [|exact Hmax].
  apply Hauto; [vm_compute; discriminate | reflexivity].
Defined.

Lemma short_input_empty_suggestion_witness :
  len (normalize latin1_lower (py "Hello!")) < N - 1
  ∧ autocomplete latin1_lower cyclic_model (py "Hello!") 10 = Return [].
Proof.
  split; [reflexivity|].
  apply (short_input_empty_suggestion latin1_lower cyclic_model (py "Hello!") 10).
  reflexivity.
Defined.

Lemma empty_corpus_empty_suggestion_witness :
  Forall (short_record latin1_lower) [JDict [(py "message", JStr (py "ok"))]]
  ∧ get_contextual_suggestion latin1_lower
      (Loaded (JList [JDict [(py "message", JStr (py "ok"))]]))
      (py "let's talk") 10
    = Return [].
Proof.
  assert (H : Forall (short_record latin1_lower)
                [JDict [(py "message", JStr (py "ok"))]]).
  { constructor; [|constructor].
    exists [(py "message", JStr (py "ok"))], (py "ok").
    split; [reflexivity|]. split; reflexivity. }
  split; [exact H|].
  exact (empty_corpus_empty_suggestion latin1_lower _ (py "let's talk") 10 H).
Defined.

Lemma autocomplete_bounded_witness :
  wf_model cyclic_model ∧ 0 ≤ 7
  ∧ ∃ ws, autocomplete latin1_lower cyclic_model (py "a a") 7
          = Return (join (py " ") ws)
          ∧ split (join (py " ") ws) = ws
          ∧ len ws ≤ 7.
Proof.
  split; [exact wf_cyclic_model|]. split; [lia|].
  apply (autocomplete_bounded latin1_lower cyclic_model (py "a a") 7);
    [exact wf_cyclic_model | lia].
Defined.

Lemma autocomplete_frame_witness :
  (autocomplete_run latin1_lower cyclic_model (py "a a") 7).2 = cyclic_model
  ∧ cyclic_model !! [py "b"; py "b"] = None
  ∧ autocomplete_loop (range 7) cyclic_model [py "b"; py "b"] []
    = (Return [], cyclic_model).
Proof.
  destruct (autocomplete_frame latin1_lower) as (Hframe & Hmiss & _).
  split; [apply Hframe|]. split; [reflexivity|].
  apply Hmiss. reflexivity.
Defined.

Lemma normalize_tokens_alnum_witness :
  py "will" ∈ normalize latin1_lower (py "I WILL  review!!")
  ∧ py "will" ≠ []
  ∧ ∀ c, c ∈ py "will" → (97 ≤ c ≤ 122)%N ∨ (48 ≤ c ≤ 57)%N.
Proof.
  assert (H : py "will" ∈ normalize latin1_lower (py "I WILL  review!!")).
  { apply elem_of_cons. right. apply elem_of_cons. by left. }
  split; [exact H|].
  exact (proj1 (normalize_tokens_alnum latin1_lower) _ _ H).
Defined.

Lemma record_without_message_skipped_witness :
  lacks_message (JDict [(py "sender", JStr (py "alice"))])
  ∧ item_get_message (JDict [(py "sender", JStr (py "alice"))])
    = Return (JStr []).
Proof.
  assert (H : lacks_message (JDict [(py "sender", JStr (py "alice"))])).
  { exists [(py "sender", JStr (py "alice"))]. split; [reflexivity|].
    intros Hin. apply list_elem_of_singleton in Hin. discriminate Hin. }
  split; [exact H|].
  exact (proj1 (record_without_message_skipped latin1_lower) _ H).
Defined.

(** * The further properties on concrete inputs *)

Example chat_history_limit_zero :
  load_chat_history
    (Loaded (JList [JDict [(py "sender", JStr (py "ann")); (py "message", JStr (py "hi"))];
                    JDict [(py "sender", JStr (py "bob")); (py "message", JStr (py "yo"))]]))
    (Some (py "ann")) 0
  = [ {| role := py "user"; content := JStr (py "hi") |};
      {| role := py "assistant"; content := JStr (py "yo") |} ].
Proof. by vm_compute. Qed.

Example chat_history_limit_one :
  load_chat_history
    (Loaded (JList [JDict [(py "sender", JStr (py "ann")); (py "message", JStr (py "hi"))];
                    JDict [(py "sender", JStr (py "bob")); (py "message", JStr (py "yo"))]]))
    (Some (py "ann")) 1
  = [ {| role := py "assistant"; content := JStr (py "yo") |} ].
Proof. by vm_compute. Qed.

Example jira_status_decides :
  is_active (JDict [(py "status", JStr (py "In Review"))]) = Some true
  ∧ is_active (JDict [(py "status", JStr (py "Done"))]) = None
  ∧ is_active (JDict [(py "status", JStr (py "Done"));
                      (py "priority", JStr (py "Low"))]) = Some false.
Proof. by vm_compute. Qed.

Lemma cyclic_model_no_empty_counter (ctx : list str) :
  cyclic_model !! ctx ≠ Some [].
Proof.
  unfold cyclic_model. intros [_ H]%lookup_singleton_Some. discriminate H.
Defined.

Lemma model_holds_corpus_trigrams_witness :
  ∃ model : ngram_model,
    build_ngram_model [[py "i"; py "will"; py "review"]] = Return model
    ∧ ∃ (c : counter) (n : Z),
        model !! [py "i"; py "will"] = Some c ∧ (py "review", n) ∈ c.
Proof.
  destruct (model_holds_corpus_trigrams [[py "i"; py "will"; py "review"]])
    as (_ & model & Hb & H).
  exists model. split; [exact Hb|]. apply H.
  exists [py "i"; py "will"; py "review"], [], (py "i"), (py "will"), [].
  split; [apply elem_of_cons; by left|]. split; reflexivity.
Defined.

Lemma model_counts_witness :
  ∃ (model : ngram_model) (c : counter),
    build_ngram_model [[py "a"; py "a"; py "a"; py "a"]] = Return model
    ∧ model !! [py "a"; py "a"] = Some c
    ∧ counter_total c
      = len (recorded [py "a"; py "a"]
               (counting_pass [[py "a"; py "a"; py "a"; py "a"]])).
Proof.
  destruct (model_counts [[py "a"; py "a"; py "a"; py "a"]])
    as (model & Hb & H).
  assert (Hc : model !! [py "a"; py "a"] = Some [(py "a", 2)]).
  { rewrite build_ngram_model_pass in Hb. injection Hb as <-.
    vm_compute. reflexivity. }
  exists model, [(py "a", 2)]. split; [exact Hb|]. split; [exact Hc|].
  exact (proj2 (proj2 (proj2 (H _ _ Hc)))).
Defined.

Lemma short_sentence_ignored_witness :
  len [py "ok"] < N
  ∧ build_ngram_model ([[py "a"; py "b"; py "c"]] ++ [py "ok"] :: [])
    = build_ngram_model ([[py "a"; py "b"; py "c"]] ++ []).
Proof.
  split; [reflexivity|].
  apply (short_sentence_ignored [[py "a"; py "b"; py "c"]] [] [py "ok"]).
  reflexivity.
Defined.

Lemma counts_order_independent_witness :
  ∃ model1 model2 : ngram_model,
    build_ngram_model [[py "a"; py "b"; py "c"]; [py "a"; py "b"; py "d"]]
    = Return model1
    ∧ build_ngram_model [[py "a"; py "b"; py "d"]; [py "a"; py "b"; py "c"]]
      = Return model2
    ∧ counter_get (default [] (model1 !! [py "a"; py "b"])) (py "c")
      = counter_get (default [] (model2 !! [py "a"; py "b"])) (py "c").
Proof.
  destruct (counts_order_independent
    [[py "a"; py "b"; py "c"]; [py "a"; py "b"; py "d"]]
    [[py "a"; py "b"; py "d"]; [py "a"; py "b"; py "c"]])
    as (model1 & model2 & H1 & H2 & H); [apply perm_swap|].
  exists model1, model2. split; [exact H1|]. split; [exact H2|].
  exact (proj2 (H [py "a"; py "b"] (py "c"))).
Defined.

Lemma suggestion_follows_corpus_witness :
  ∃ (model : ngram_model) (ws : list str),
    build_ngram_model [[py "i"; py "will"; py "review"]] = Return model
    ∧ autocomplete latin1_lower model (py "I will") 5
      = Return (join (py " ") ws)
    ∧ follows (counting_pass [[py "i"; py "will"; py "review"]])
        (slice_from (normalize latin1_lower (py "I will")) (- (N - 1))) ws.
Proof.
  destruct (suggestion_follows_corpus latin1_lower
    [[py "i"; py "will"; py "review"]] (py "I will") 5)
    as (model & ws & Hb & Ha & Hf & _).
  exists model, ws. split; [exact Hb|]. split; [exact Ha | exact Hf].
Defined.

Lemma suggestion_extends_witness :
  2 ≤ 5
  ∧ ∃ ws1 ws2,
      autocomplete latin1_lower cyclic_model (py "a a") 2
      = Return (join (py " ") ws1)
      ∧ autocomplete latin1_lower cyclic_model (py "a a") 5
        = Return (join (py " ") (ws1 ++ ws2)).
Proof.
  split; [lia|].
  apply (suggestion_extends latin1_lower cyclic_model (py "a a") 2 5);
    [exact cyclic_model_no_empty_counter | lia].
Defined.

Lemma early_stop_is_miss_witness :
  N - 1 ≤ len (normalize latin1_lower (py "a a"))
  ∧ ∃ ws,
      autocomplete_loop (range 3) cyclic_model
        (slice_from (normalize latin1_lower (py "a a")) (- (N - 1))) []
      = (Return ws, cyclic_model)
      ∧ autocomplete latin1_lower cyclic_model (py "a a") 3
        = Return (join (py " ") ws)
      ∧ len ws ≤ Z.max 0 3
      ∧ (len ws < 3 →
         cyclic_model
           !! walk_context
                (slice_from (normalize latin1_lower (py "a a")) (- (N - 1))) ws
         = None).
Proof.
  assert (H : N - 1 ≤ len (normalize latin1_lower (py "a a")))
    by (vm_compute; discriminate).
  split; [exact H|].
  exact (early_stop_is_miss latin1_lower cyclic_model (py "a a") 3
           cyclic_model_no_empty_counter H).
Defined.

Lemma is_record_message (s : str) : is_record (JDict [(py "message", JStr s)]).
Proof. exists [(py "message", JStr s)], s. split; reflexivity. Defined.

Lemma load_sentences_records_witness :
  Forall is_record [JDict [(py "message", JStr (py "I will review it"))]]
  ∧ ∃ sentences,
      load_sentences latin1_lower
        (Loaded (JList [JDict [(py "message", JStr (py "I will review it"))]]))
      = Return sentences
      ∧ ∀ tokens, tokens ∈ sentences → N ≤ len tokens.
Proof.
  assert (H : Forall is_record
                [JDict [(py "message", JStr (py "I will review it"))]])
    by (constructor; [apply is_record_message | constructor]).
  split; [exact H|].
  destruct (load_sentences_records latin1_lower _ H) as (ss & Hl & _ & Hs).
  exists ss. split; [exact Hl|]. intros tokens Ht. exact (proj1 (Hs tokens Ht)).
Defined.

Lemma record_list_never_raises_witness :
  Forall is_record [JDict [(py "message", JStr (py "I will review it"))]]
  ∧ ∃ ws,
      get_contextual_suggestion latin1_lower
        (Loaded (JList [JDict [(py "message", JStr (py "I will review it"))]]))
        (py "I will") 5
      = Return (join (py " ") ws)
      ∧ split (join (py " ") ws) = ws
      ∧ len ws ≤ Z.max 0 5.
Proof.
  assert (H : Forall is_record
                [JDict [(py "message", JStr (py "I will review it"))]])
    by (constructor; [apply is_record_message | constructor]).
  split; [exact H|].
  exact (record_list_never_raises latin1_lower _ (py "I will") 5 H).
Defined.

Lemma normalize_app_space_witness :
  normalize latin1_lower (py "I will" ++ 10%N :: py "review it")
  = normalize latin1_lower (py "I will")
    ++ normalize latin1_lower (py "review it").
Proof.
  apply (normalize_app_space latin1_lower (py "I will") (py "review it") 10%N);
    reflexivity.
Defined.

Lemma autocomplete_last_words_witness :
  N - 1 ≤ len (normalize latin1_lower (py "a a"))
  ∧ autocomplete_run latin1_lower cyclic_model (py "well" ++ py " " ++ py "a a") 3
    = autocomplete_run latin1_lower cyclic_model (py "a a") 3.
Proof.
  assert (H : N - 1 ≤ len (normalize latin1_lower (py "a a")))
    by (vm_compute; discriminate).
  split; [exact H|].
  exact (autocomplete_last_words latin1_lower cyclic_model (py "well") (py "a a")
           3 eq_refl eq_refl H).
Defined.

Lemma punctuation_ignored_witness :
  normalize latin1_lower (py "don" ++ 39%N :: py "t")
  = normalize latin1_lower (py "don" ++ py "t").
Proof.
  apply (punctuation_ignored latin1_lower (py "don") (py "t") 39%N);
    reflexivity.
Defined.

Lemma load_chat_history_recent_witness :
  len (load_chat_history
         (Loaded (JList [JDict [(py "sender", JStr (py "ann"));
                                (py "message", JStr (py "hi"))];
                         JDict [(py "sender", JStr (py "bob"));
                                (py "message", JStr (py "yo"))]]))
         (Some (py "ann")) 0)
  = len [JDict [(py "sender", JStr (py "ann")); (py "message", JStr (py "hi"))];
         JDict [(py "sender", JStr (py "bob")); (py "message", JStr (py "yo"))]].
Proof.
  apply (load_chat_history_recent
    [JDict [(py "sender", JStr (py "ann")); (py "message", JStr (py "hi"))];
     JDict [(py "sender", JStr (py "bob")); (py "message", JStr (py "yo"))]]
    (Some (py "ann")) 0); [|reflexivity].
  repeat constructor; eexists; reflexivity.
Defined.

Lemma load_chat_history_all_or_nothing_witness :
  load_chat_history
    (Loaded (JList [JDict [(py "sender", JStr (py "ann"));
                           (py "message", JStr (py "hi"))];
                    JDict [(py "message", JStr (py "yo"))]]))
    (Some (py "ann")) 10
  = [].
Proof.
  apply load_chat_history_all_or_nothing. intros msgs [= <-].
  exists (JDict [(py "message", JStr (py "yo"))]). split.
  - apply elem_of_cons. right. apply elem_of_cons. by left.
  - left. reflexivity.
Defined.

Lemma save_message_appends_witness :
  (save_message Missing true (JStr (py "ann")) (JStr (py "hi")) None
     (py "2024-01-01T00:00:00")).1 = true.
Proof.
  apply (proj1 (save_message_appends Missing true (JStr (py "ann"))
                  (JStr (py "hi")) None (py "2024-01-01T00:00:00"))).
  split; [reflexivity | by left].
Defined.

Lemma save_message_then_load_sentences_witness :
  ∃ file',
    save_message Missing true (JStr (py "ann")) (JStr (py "I will review it"))
      None (py "2024-01-01T00:00:00")
    = (true, file')
    ∧ load_sentences latin1_lower file'
      = sentences ← load_sentences latin1_lower Missing;
        Return (if N <=? len (normalize latin1_lower (py "I will review it"))
                then sentences ++ [normalize latin1_lower (py "I will review it")]
                else sentences).
Proof.
  apply (save_message_then_load_sentences latin1_lower Missing []).
  by left.
Defined.

Lemma save_message_then_load_chat_history_witness :
  last (load_chat_history
          (save_message Missing true (JStr (py "ann")) (JStr (py "hi")) None
             (py "2024-01-01T00:00:00")).2
          (Some (py "ann")) 10)
  = Some {| role := py "user"; content := JStr (py "hi") |}.
Proof.
  apply (save_message_then_load_chat_history Missing [] (JStr (py "ann"))
           (JStr (py "hi")) None (py "2024-01-01T00:00:00") (Some (py "ann")) 10);
    [by left | constructor | lia].
Defined.

Lemma load_jira_context_active_witness :
  active_tasks
    (load_jira_context
       (Loaded (JList [JDict [(py "status", JStr (py "In Progress"))];
                       JDict [(py "status", JStr (py "Done"));
                              (py "priority", JStr (py "Low"))];
                       JDict [(py "status", JStr (py "In Progress"))]])))
  = [JDict [(py "status", JStr (py "In Progress"))];
     JDict [(py "status", JStr (py "In Progress"))]].
Proof.
  destruct (load_jira_context_active
    (Loaded (JList [JDict [(py "status", JStr (py "In Progress"))];
                    JDict [(py "status", JStr (py "Done"));
                           (py "priority", JStr (py "Low"))];
                    JDict [(py "status", JStr (py "In Progress"))]])))
    as (_ & _ & H).
  destruct (H _ eq_refl) as (_ & _ & _ & Hfilter).
  - intros task Hin.
    apply elem_of_cons in Hin as [->|Hin]; [by eexists|].
    apply elem_of_cons in Hin as [->|Hin]; [by eexists|].
    apply elem_of_cons in Hin as [->|Hin]; [by eexists|].
    by apply elem_of_nil in Hin.
  - rewrite Hfilter. reflexivity.
Defined.

Lemma load_jira_context_all_or_nothing_witness :
  load_jira_context
    (Loaded (JList [JDict [(py "status", JStr (py "In Progress"))];
                    JDict [(py "status", JStr (py "Done"))]]))
  = {| active_tasks := []; total_tasks := 0 |}.
Proof.
  apply (load_jira_context_all_or_nothing _
           (JDict [(py "status", JStr (py "Done"))])); [|reflexivity].
  apply elem_of_cons. right. apply elem_of_cons. by left.
Defined.

Lemma load_contextual_suggestions_records_witness :
  Forall is_record [JDict [(py "message", JStr (py "I will review it"))]]
  ∧ ∃ ws,
      load_contextual_suggestions latin1_lower
        (Loaded (JList [JDict [(py "message", JStr (py "I will review it"))]]))
        (py "I will")
      = join (py " ") ws
      ∧ len ws ≤ 10.
Proof.
  assert (H : Forall is_record
                [JDict [(py "message", JStr (py "I will review it"))]])
    by (constructor; [apply is_record_message | constructor]).
  split; [exact H|].
  destruct (load_contextual_suggestions_records latin1_lower _ (py "I will") H)
    as (ws & Hl & _ & _ & Hlen).
  exists ws. split; [exact Hl | exact Hlen].
Defined.

